(** * counter-app: the counter reducer, the persisted store and the theme resolver

    A shallow embedding of the state logic of [src/hooks/index.ts] and of the
    storage adapter of [src/utils/index.ts].

    Conventions of the embedding.
    - JavaScript numbers that hold counter values are integers ([Z]); on
      integers inside the safe range the double arithmetic of the source
      ([+ 1], [- 1], [Math.max], [Math.min], [<], [>], [<=], [>=]) is exact.
    - [CounterActionType] and [ThemeMode] are string constants in the source
      ([as const] objects).  Action kinds stay strings, because the reducer's
      [switch] has a [default] branch for every other string; theme modes are
      a three-constructor type, as the [ThemeMode] union has it.
    - [crypto.randomUUID()] and [new Date()] read the ambient [World]; the
      reducer threads it explicitly.
    - A hook is modelled by the state it holds between two renders; every
      callback is invoked on the state of the latest render. *)

From Stdlib Require Import ZArith String Ascii List Bool Lia.
From Stdlib Require Import DecimalString DecimalZ.
From stdpp Require Import base option list gmap strings.
Import ListNotations.

Local Open Scope Z_scope.

(** ** Ambient capabilities: uuid generator and clock *)

Module Ambient.

Record World := mkWorld {
  uuid_source : nat -> string;   (* the n-th value of crypto.randomUUID() *)
  uuid_calls  : nat;
  clock       : nat -> Z;        (* the n-th reading of new Date(), in ms *)
  clock_reads : nat
}.

(** Computations reading the ambient world. *)
Definition Eff (A : Type) : Type := World -> A * World.

Definition ret {A} (a : A) : Eff A := fun w => (a, w).

Definition bind {A B} (m : Eff A) (k : A -> Eff B) : Eff B :=
  fun w => let '(a, w') := m w in k a w'.

Definition randomUUID : Eff string := fun w =>
  (uuid_source w (uuid_calls w),
   {| uuid_source := uuid_source w; uuid_calls := S (uuid_calls w);
      clock := clock w; clock_reads := clock_reads w |}).

Definition newDate : Eff Z := fun w =>
  (clock w (clock_reads w),
   {| uuid_source := uuid_source w; uuid_calls := uuid_calls w;
      clock := clock w; clock_reads := S (clock_reads w) |}).

(** A concrete world, for running the definitions. *)
Definition world0 : World :=
  {| uuid_source := fun n => String.append "uuid-" (String (ascii_of_nat (48 + n)) EmptyString);
     uuid_calls := 0%nat;
     clock := fun n => 1000 + Z.of_nat n;
     clock_reads := 0%nat |}.

End Ambient.

Notation "'let*' x ':=' m 'in' k" := (Ambient.bind m (fun x => k))
  (at level 10, x name, m at level 100, k at level 200).

(** ** src/types/index.ts *)

Module Types.

Inductive ThemeMode := LIGHT | DARK | SYSTEM.

#[global] Instance ThemeMode_eq_dec : EqDecision ThemeMode.
Proof. solve_decision. Defined.

(** [CounterActionType]: the four string constants. *)
Definition INCREMENT : string := "INCREMENT".
Definition DECREMENT : string := "DECREMENT".
Definition RESET     : string := "RESET".
Definition SET_VALUE : string := "SET_VALUE".

Record CounterHistoryEntry := mkEntry {
  id            : string;
  action        : string;
  previousValue : Z;
  newValue      : Z;
  timestamp     : Z;
  createdAt     : Z;
  updatedAt     : Z
}.

Record CounterState := mkState {
  value     : Z;
  isLoading : bool;
  error     : option string;
  history   : list CounterHistoryEntry
}.

Record CounterConfig := mkConfig {
  initialValue      : Z;
  minValue          : Z;
  maxValue          : Z;
  step              : Z;
  enableHistory     : bool;
  enablePersistence : bool
}.

(** [Partial<CounterConfig>] *)
Record PartialCounterConfig := mkPartial {
  initialValue_opt      : option Z;
  minValue_opt          : option Z;
  maxValue_opt          : option Z;
  step_opt              : option Z;
  enableHistory_opt     : option bool;
  enablePersistence_opt : option bool
}.

Definition MAX_SAFE_INTEGER : Z := 2 ^ 53 - 1.

End Types.

(** ** src/hooks/index.ts: counterReducer and useCounter *)

Module Counter.
Import Ambient Types.

Record CounterAction := mkAction {
  type    : string;
  payload : option Z
}.

Definition createHistoryEntry (actionType : string) (previousValue newValue : Z)
  : Eff CounterHistoryEntry :=
  let* i := randomUUID in
  let* t := newDate in
  let* c := newDate in
  let* u := newDate in
  ret {| id := i; action := actionType;
         previousValue := previousValue; newValue := newValue;
         timestamp := t; createdAt := c; updatedAt := u |}.

(** [{ ...state, value: v, history: [...state.history, e] }] *)
Definition with_value_and_entry (state : CounterState) (v : Z)
    (e : CounterHistoryEntry) : CounterState :=
  {| value := v;
     isLoading := isLoading state;
     error := error state;
     history := history state ++ [e] |}.

Definition counterReducer (state : CounterState) (action : CounterAction)
  : Eff CounterState :=
  if String.eqb (type action) INCREMENT then
    let incrementedValue := value state + 1 in
    let* e := createHistoryEntry INCREMENT (value state) incrementedValue in
    ret (with_value_and_entry state incrementedValue e)
  else if String.eqb (type action) DECREMENT then
    let decrementedValue := Z.max 0 (value state - 1) in
    let* e := createHistoryEntry DECREMENT (value state) decrementedValue in
    ret (with_value_and_entry state decrementedValue e)
  else if String.eqb (type action) RESET then
    let* e := createHistoryEntry RESET (value state) 0 in
    ret (with_value_and_entry state 0 e)
  else if String.eqb (type action) SET_VALUE then
    let newValue := default 0 (payload action) in
    let* e := createHistoryEntry SET_VALUE (value state) newValue in
    ret (with_value_and_entry state newValue e)
  else
    ret state.

(** The action kinds the [switch] has a [case] for. *)
Definition recognized (kind : string) : bool :=
  String.eqb kind INCREMENT || String.eqb kind DECREMENT
  || String.eqb kind RESET || String.eqb kind SET_VALUE.

(** *** useCounter *)

Definition defaultConfig : CounterConfig :=
  {| initialValue := 0; minValue := 0; maxValue := MAX_SAFE_INTEGER;
     step := 1; enableHistory := true; enablePersistence := false |}.

(** [{ ...defaultConfig, ...initialConfig }] *)
Definition mergeConfig (d : CounterConfig) (p : PartialCounterConfig) : CounterConfig :=
  {| initialValue := default (initialValue d) (initialValue_opt p);
     minValue := default (minValue d) (minValue_opt p);
     maxValue := default (maxValue d) (maxValue_opt p);
     step := default (step d) (step_opt p);
     enableHistory := default (enableHistory d) (enableHistory_opt p);
     enablePersistence := default (enablePersistence d) (enablePersistence_opt p) |}.

Definition noConfig : PartialCounterConfig :=
  {| initialValue_opt := None; minValue_opt := None; maxValue_opt := None;
     step_opt := None; enableHistory_opt := None; enablePersistence_opt := None |}.

(** What the hook holds between renders: the memoised config, the reducer
    state, and the ambient world the next dispatch will read. *)
Record Hook := mkHook {
  config : CounterConfig;
  state  : CounterState;
  world  : World
}.

Definition useCounter (initialConfig : PartialCounterConfig) (w : World) : Hook :=
  let config := mergeConfig defaultConfig initialConfig in
  {| config := config;
     state := {| value := initialValue config; isLoading := false;
                 error := None; history := [] |};
     world := w |}.

Definition dispatch (h : Hook) (a : CounterAction) : Hook :=
  let '(s, w) := counterReducer (state h) a (world h) in
  {| config := config h; state := s; world := w |}.

Definition increment (h : Hook) : Hook :=
  if value (state h) <? maxValue (config h)
  then dispatch h {| type := INCREMENT; payload := None |}
  else h.

Definition decrement (h : Hook) : Hook :=
  if value (state h) >? minValue (config h)
  then dispatch h {| type := DECREMENT; payload := None |}
  else h.

Definition reset (h : Hook) : Hook :=
  dispatch h {| type := RESET; payload := None |}.

Definition setValue (v : Z) (h : Hook) : Hook :=
  let clampedValue := Z.max (minValue (config h)) (Z.min (maxValue (config h)) v) in
  dispatch h {| type := SET_VALUE; payload := Some clampedValue |}.

Definition isAtMin (h : Hook) : bool := value (state h) <=? minValue (config h).
Definition isAtMax (h : Hook) : bool := value (state h) >=? maxValue (config h).

Definition count (h : Hook) : Z := value (state h).

(** [history: config.enableHistory ? state.history : []] *)
Definition returned_history (h : Hook) : list CounterHistoryEntry :=
  if enableHistory (config h) then history (state h) else [].

(** The public interface of the hook, as a sequence of calls. *)
Inductive Op := OpIncrement | OpDecrement | OpReset | OpSetValue (v : Z).

Definition run_op (h : Hook) (o : Op) : Hook :=
  match o with
  | OpIncrement => increment h
  | OpDecrement => decrement h
  | OpReset => reset h
  | OpSetValue v => setValue v h
  end.

Definition run_ops (h : Hook) (ops : list Op) : Hook := fold_left run_op ops h.

(** The hook after each call of the sequence, in order. *)
Fixpoint trace (h : Hook) (ops : list Op) : list Hook :=
  match ops with
  | [] => []
  | o :: ops' => let h' := run_op h o in h' :: trace h' ops'
  end.

Definition in_bounds (h : Hook) : Prop :=
  minValue (config h) <= value (state h) <= maxValue (config h).

(** *** Vocabulary of the properties below *)

(** The entry a dispatch appends, and the world it leaves. *)
Definition entry_of (kind : string) (prev next : Z) (w : World) : CounterHistoryEntry :=
  fst (createHistoryEntry kind prev next w).

Definition world_after_entry (w : World) : World :=
  snd (createHistoryEntry EmptyString 0 0 w).

(** The value a recognized action leads to. *)
Definition target (s : CounterState) (a : CounterAction) : Z :=
  if String.eqb (type a) INCREMENT then value s + 1
  else if String.eqb (type a) DECREMENT then Z.max 0 (value s - 1)
  else if String.eqb (type a) RESET then 0
  else default 0 (payload a).

(** A config whose bounds contain 0, which is where [reset] and the floor
    of [decrement] lead. *)
Definition zero_in_bounds (c : CounterConfig) : Prop :=
  minValue c <= 0 <= maxValue c.

(** *** Concrete configurations and states *)

Definition bounds (initial lo hi : Z) : PartialCounterConfig :=
  {| initialValue_opt := Some initial; minValue_opt := Some lo; maxValue_opt := Some hi;
     step_opt := None; enableHistory_opt := None; enablePersistence_opt := None |}.

Definition bounds_step (initial lo hi st : Z) : PartialCounterConfig :=
  {| initialValue_opt := Some initial; minValue_opt := Some lo; maxValue_opt := Some hi;
     step_opt := Some st; enableHistory_opt := None; enablePersistence_opt := None |}.

Definition act (kind : string) : CounterAction := {| type := kind; payload := None |}.

Definition failed_state : CounterState :=
  {| value := 0; isLoading := false; error := Some "boom"%string; history := [] |}.

End Counter.

(** ** Reference identity of reducer states

    [counterReducer] once more, on references into a store of state objects:
    an object literal allocates a new object, [return state] returns the
    reference it was given.  [None] is a reference that points nowhere, which
    no caller of the reducer can produce. *)

Module Refs.
Import Ambient Types Counter.

Definition ref := nat.
Definition Heap := list CounterState.

(** Evaluating an object literal. *)
Definition alloc (s : CounterState) (h : Heap) : ref * Heap :=
  (length h, h ++ [s]).

Definition counterReducer (h : Heap) (state : ref) (action : CounterAction)
    (w : World) : option (ref * Heap * World) :=
  s ← h !! state;
  if String.eqb (type action) INCREMENT then
    let incrementedValue := value s + 1 in
    let '(e, w') := createHistoryEntry INCREMENT (value s) incrementedValue w in
    Some (alloc (with_value_and_entry s incrementedValue e) h, w')
  else if String.eqb (type action) DECREMENT then
    let decrementedValue := Z.max 0 (value s - 1) in
    let '(e, w') := createHistoryEntry DECREMENT (value s) decrementedValue w in
    Some (alloc (with_value_and_entry s decrementedValue e) h, w')
  else if String.eqb (type action) RESET then
    let '(e, w') := createHistoryEntry RESET (value s) 0 w in
    Some (alloc (with_value_and_entry s 0 e) h, w')
  else if String.eqb (type action) SET_VALUE then
    let newValue := default 0 (payload action) in
    let '(e, w') := createHistoryEntry SET_VALUE (value s) newValue w in
    Some (alloc (with_value_and_entry s newValue e) h, w')
  else
    Some (state, h, w).

End Refs.

(** ** The browser's Storage object and JSON *)

Module Web.

(** The outcome of a call that may throw. *)
Inductive Completion (A : Type) :=
| Returns (a : A)
| Throws (err : string).
Arguments Returns {A} a.
Arguments Throws {A} err.

(** A Storage area: its entries, whether the page may access it, and how
    many characters of keys and values it may hold. *)
Record Storage := mkStorage {
  items      : gmap string string;
  accessible : bool;
  quota      : nat
}.

Definition used (m : gmap string string) : nat :=
  map_fold (fun k v n => (String.length k + String.length v + n)%nat) 0%nat m.

Definition getItem (st : Storage) (key : string) : Completion (option string) :=
  if accessible st then Returns (items st !! key) else Throws "SecurityError".

Definition setItem (st : Storage) (key value : string) : Completion Storage :=
  if accessible st then
    let m := <[key := value]> (items st) in
    if (used m <=? quota st)%nat
    then Returns {| items := m; accessible := accessible st; quota := quota st |}
    else Throws "QuotaExceededError"
  else Throws "SecurityError".

Definition removeItem (st : Storage) (key : string) : Completion Storage :=
  if accessible st
  then Returns {| items := delete key (items st);
                  accessible := accessible st; quota := quota st |}
  else Throws "SecurityError".

Definition clear (st : Storage) : Completion Storage :=
  if accessible st
  then Returns {| items := ∅; accessible := accessible st; quota := quota st |}
  else Throws "SecurityError".

(** Truthiness of a [string | null]: neither [null] nor the empty string. *)
Definition truthy (item : option string) : option string :=
  match item with
  | Some EmptyString => None
  | other => other
  end.

(** [JSON.stringify] and [JSON.parse] at a type [T] of serializable values.
    [parse] is [None] where [JSON.parse] throws a SyntaxError.  A value is
    serializable when parsing its serialization gives it back; the
    serialization of a value is never the empty string. *)
Class Json (T : Type) := mkJson {
  stringify : T -> string;
  parse : string -> option T;
  parse_stringify : forall v, parse (stringify v) = Some v;
  stringify_nonempty : forall v, stringify v <> EmptyString
}.

Definition quoted (s : string) : string :=
  String "034" (String.append s (String "034" EmptyString)).

(** Concrete storage areas, for running the definitions. *)
Definition empty_storage (q : nat) : Storage :=
  {| items := ∅; accessible := true; quota := q |}.

Definition storage_with (key text : string) (q : nat) : Storage :=
  {| items := <[key := text]> ∅; accessible := true; quota := q |}.

End Web.

(** ** JSON at the two types the application stores

    The theme mode is stored as a JSON string, the counter value as a JSON
    number.  Both parsers agree with [JSON.parse] on every string
    [JSON.stringify] produces at that type; a stored string that is no value
    of the type is treated as unparsable. *)

Module JsonInstances.
Import Types Web.

Definition theme_string (m : ThemeMode) : string :=
  match m with
  | LIGHT => "light"
  | DARK => "dark"
  | SYSTEM => "system"
  end.

Definition stringify_theme (m : ThemeMode) : string := quoted (theme_string m).

Definition parse_theme (s : string) : option ThemeMode :=
  if String.eqb s (quoted "light") then Some LIGHT
  else if String.eqb s (quoted "dark") then Some DARK
  else if String.eqb s (quoted "system") then Some SYSTEM
  else None.

#[global, refine] Instance Json_ThemeMode : Json ThemeMode :=
  {| stringify := stringify_theme; parse := parse_theme |}.
Proof.
  - intros []; reflexivity.
  - intros []; discriminate.
Defined.

Definition stringify_number (z : Z) : string :=
  NilZero.string_of_int (Z.to_int z).

Definition parse_number (s : string) : option Z :=
  option_map Z.of_int (NilZero.int_of_string s).

#[global, refine] Instance Json_number : Json Z :=
  {| stringify := stringify_number; parse := parse_number |}.
Proof.
  - intros z. unfold parse_number, stringify_number.
    rewrite NilZero.isi.
    + simpl. f_equal. apply DecimalZ.of_to.
    + destruct z as [|p|p]; simpl; try discriminate.
      intros [= Hp]. exact (DecimalPos.Unsigned.to_uint_nonnil p Hp).
    + destruct z as [|p|p]; simpl; try discriminate.
      intros [= Hp]. exact (DecimalPos.Unsigned.to_uint_nonnil p Hp).
  - intros z. unfold stringify_number.
    destruct (Z.to_int z) as [d|d]; simpl; [|discriminate].
    destruct d; discriminate.
Defined.

End JsonInstances.

(** ** src/hooks/index.ts: useLocalStorage *)

Module LocalStorage.
Import Web.

Section Hook.
Context {T : Type} `{Json T}.

(** The three [useState] cells of the hook. *)
Record Hook := mkHook {
  storedValue : T;
  isLoading   : bool;
  error       : option string
}.

Definition read_failure (err : string) : string :=
  String.append "Failed to read from localStorage: " err.
Definition write_failure (err : string) : string :=
  String.append "Failed to write to localStorage: " err.
Definition remove_failure (err : string) : string :=
  String.append "Failed to remove from localStorage: " err.

(** The first render: [useState(true)], [useState(null)],
    [useState(initialValue)]. *)
Definition first_render (initialValue : T) : Hook :=
  {| storedValue := initialValue; isLoading := true; error := None |}.

(** The effect that initialises the value from localStorage.  The
    storage it leaves behind is returned next to the hook. *)
Definition initialize (key : string) (h : Hook) (st : Storage) : Hook * Storage :=
  match getItem st key with
  | Throws err =>
      ({| storedValue := storedValue h; isLoading := false;
          error := Some (read_failure err) |}, st)
  | Returns item =>
      match truthy item with
      | Some text =>
          match parse text with
          | Some parsedValue =>
              ({| storedValue := parsedValue; isLoading := false; error := None |}, st)
          | None =>
              ({| storedValue := storedValue h; isLoading := false;
                  error := Some (read_failure "SyntaxError") |}, st)
          end
      | None =>
          ({| storedValue := storedValue h; isLoading := false; error := None |}, st)
      end
  end.

(** The hook once mounted: first render, then the effect. *)
Definition useLocalStorage (key : string) (initialValue : T) (st : Storage)
  : Hook * Storage :=
  initialize key (first_render initialValue) st.

(** [setValue]: a value, or a function of the current value. *)
Definition setValue (key : string) (value : T + (T -> T)) (h : Hook) (st : Storage)
  : Hook * Storage :=
  let valueToStore :=
    match value with
    | inl v => v
    | inr f => f (storedValue h)
    end in
  match setItem st key (stringify valueToStore) with
  | Returns st' =>
      ({| storedValue := valueToStore; isLoading := isLoading h; error := None |}, st')
  | Throws err =>
      ({| storedValue := valueToStore; isLoading := isLoading h;
          error := Some (write_failure err) |}, st)
  end.

Definition removeValue (key : string) (initialValue : T) (h : Hook) (st : Storage)
  : Hook * Storage :=
  match removeItem st key with
  | Returns st' =>
      ({| storedValue := initialValue; isLoading := isLoading h; error := None |}, st')
  | Throws err =>
      ({| storedValue := storedValue h; isLoading := isLoading h;
          error := Some (remove_failure err) |}, st)
  end.

(** An entry that is absent, or whose text does not parse. *)
Definition unreadable (st : Storage) (key : string) : Prop :=
  items st !! key = None
  \/ exists text, items st !! key = Some text /\ parse (T := T) text = None.

End Hook.
Arguments Hook T : clear implicits.

End LocalStorage.

(** ** src/utils/index.ts: createStorageAdapter *)

Module Adapter.
Import Web.

Section Adapter.
Context {T : Type} `{Json T}.

(** [getItem]: the parsed entry, or [null] ([None]). *)
Definition getItem (storage : Storage) (key : string) : option T :=
  match Web.getItem storage key with
  | Returns item =>
      match truthy item with
      | Some text => parse text
      | None => None
      end
  | Throws _ => None
  end.

(** [setItem], [removeItem] and [clear] give the storage they leave and
    what they wrote to [console.error]. *)
Definition setItem (storage : Storage) (key : string) (value : T)
  : Storage * option string :=
  match Web.setItem storage key (stringify value) with
  | Returns storage' => (storage', None)
  | Throws err => (storage, Some (String.append "Failed to save to storage: " err))
  end.

Definition removeItem (storage : Storage) (key : string) : Storage * option string :=
  match Web.removeItem storage key with
  | Returns storage' => (storage', None)
  | Throws err => (storage, Some (String.append "Failed to remove from storage: " err))
  end.

Definition clear (storage : Storage) : Storage * option string :=
  match Web.clear storage with
  | Returns storage' => (storage', None)
  | Throws err => (storage, Some (String.append "Failed to clear storage: " err))
  end.

End Adapter.

End Adapter.

(** ** src/hooks/index.ts: useTheme *)

Module Theme.
Import Types Web JsonInstances.

Definition theme_key : string := "theme-mode".

(** The hook between renders: the stored preference (a [useLocalStorage]
    hook) and the system theme cell. *)
Record Hook := mkHook {
  themeStorage : LocalStorage.Hook ThemeMode;
  systemTheme  : ThemeMode
}.

(** [matches] of [(prefers-color-scheme: dark)] as a theme mode. *)
Definition of_matches (matches : bool) : ThemeMode :=
  if matches then DARK else LIGHT.

Definition useTheme (matches : bool) (st : Storage) : Hook * Storage :=
  let '(ts, st') := LocalStorage.useLocalStorage theme_key SYSTEM st in
  ({| themeStorage := ts; systemTheme := of_matches matches |}, st').

(** The listener for system theme changes. *)
Definition handleChange (matches : bool) (h : Hook) : Hook :=
  {| themeStorage := themeStorage h; systemTheme := of_matches matches |}.

Definition currentTheme (h : Hook) : ThemeMode :=
  if decide (LocalStorage.storedValue (themeStorage h) = SYSTEM)
  then systemTheme h
  else LocalStorage.storedValue (themeStorage h).

Definition setTheme (mode : ThemeMode) (h : Hook) (st : Storage) : Hook * Storage :=
  let '(ts, st') := LocalStorage.setValue theme_key (inl mode) (themeStorage h) st in
  ({| themeStorage := ts; systemTheme := systemTheme h |}, st').

Definition toggleTheme (h : Hook) (st : Storage) : Hook * Storage :=
  let nextMode := if decide (currentTheme h = DARK) then LIGHT else DARK in
  let '(ts, st') := LocalStorage.setValue theme_key (inl nextMode) (themeStorage h) st in
  ({| themeStorage := ts; systemTheme := systemTheme h |}, st').

Definition isDark (h : Hook) : bool := bool_decide (currentTheme h = DARK).
Definition isLight (h : Hook) : bool := bool_decide (currentTheme h = LIGHT).

(** The stored preference, as the hook reads it. *)
Definition storedPreference (h : Hook) : ThemeMode :=
  LocalStorage.storedValue (themeStorage h).

End Theme.

(** ** src/hooks/index.ts: the persistence effect of useCounter

    [useCounter] keeps a [useLocalStorage] hook under the key
    ["counter-value"] and uses its [setValue] only: after a render the
    effect writes [state.value] when [enablePersistence] is set.  Nothing
    flows back from the storage into the reducer state. *)

Module Persistence.
Import Types Web JsonInstances.

Definition counter_key : string := "counter-value".

Definition persist (h : Counter.Hook) (ls : LocalStorage.Hook Z) (st : Storage)
  : LocalStorage.Hook Z * Storage :=
  if enablePersistence (Counter.config h)
  then LocalStorage.setValue counter_key (inl (value (Counter.state h))) ls st
  else (ls, st).

End Persistence.

(** ** src/utils/index.ts: validators; src/hooks/index.ts: useValidation *)

Module Validation.
Import Web JsonInstances.

Record ValidationResult := mkResult {
  isValid : bool;
  errors  : list string
}.

Definition Validator (T : Type) : Type := T -> ValidationResult.

Definition createValidator {T : Type} (predicate : T -> bool) (errorMessage : string)
  : Validator T :=
  fun value =>
    {| isValid := predicate value;
       errors := if predicate value then [] else [errorMessage] |}.

(** The loop shared by [combineValidators] and [useValidation]: the errors
    of every validator that reports the value invalid, in order. *)
Definition collect {T : Type} (validators : list (Validator T)) (value : T)
  : list string :=
  fold_left
    (fun collected validator =>
       let result := validator value in
       if isValid result then collected else collected ++ errors result)
    validators [].

(** What one validator contributes to the collected errors. *)
Definition report {T : Type} (value : T) (validator : Validator T) : list string :=
  if isValid (validator value) then [] else errors (validator value).

Definition combineValidators {T : Type} (validators : list (Validator T)) : Validator T :=
  fun value =>
    let collected := collect validators value in
    {| isValid := (length collected =? 0)%nat; errors := collected |}.

Definition isPositiveNumber : Validator Z :=
  createValidator (fun value => value >? 0) "Value must be positive".

Definition isNonNegativeNumber : Validator Z :=
  createValidator (fun value => value >=? 0) "Value must be non-negative".

Definition isInRange (min max : Z) : Validator Z :=
  createValidator
    (fun value => (value >=? min) && (value <=? max))
    (String.append "Value must be between "
       (String.append (stringify_number min)
          (String.append " and " (stringify_number max)))).

(** [useValidation]: the value cell and what the hook derives from it. *)
Record Hook (T : Type) := mkHook {
  value      : T;
  validators : list (Validator T)
}.
Arguments value {T} _.
Arguments validators {T} _.

Definition useValidation {T : Type} (initialValue : T) (vs : list (Validator T)) : Hook T :=
  {| value := initialValue; validators := vs |}.

Definition setValue {T : Type} (v : T) (h : Hook T) : Hook T :=
  {| value := v; validators := validators h |}.

Definition validation {T : Type} (h : Hook T) : ValidationResult :=
  let collected := collect (validators h) (value h) in
  {| isValid := (length collected =? 0)%nat; errors := collected |}.

End Validation.

(** ** src/utils/index.ts: array utilities *)

Module Arrays.

Section Arrays.
Context {T : Type} `{EqDecision T}.

(** A relative index of [Array.prototype.slice], resolved against a length. *)
Definition resolve_index (len k : Z) : Z :=
  if k <? 0 then Z.max (len + k) 0 else Z.min k len.

Definition slice (array : list T) (start stop : Z) : list T :=
  let len := Z.of_nat (length array) in
  let from := resolve_index len start in
  let to := resolve_index len stop in
  take (Z.to_nat (to - from)) (drop (Z.to_nat from) array).

(** The [for] loop of [chunk], from index [i] with the chunks pushed so far.
    [None]: the loop is still running when the fuel is spent. *)
Fixpoint chunk_loop (fuel : nat) (array : list T) (size i : Z) (chunks : list (list T))
  : option (list (list T)) :=
  match fuel with
  | O => None
  | S fuel' =>
      if i <? Z.of_nat (length array)
      then chunk_loop fuel' array size (i + size) (chunks ++ [slice array i (i + size)])
      else Some chunks
  end.

Definition chunk (fuel : nat) (array : list T) (size : Z) : option (list (list T)) :=
  chunk_loop fuel array size 0 [].

(** [new Set(array)] keeps its elements in insertion order; [add] of an
    element already present changes nothing. *)
Definition set_add (s : list T) (x : T) : list T :=
  if decide (x ∈ s) then s else s ++ [x].

Definition unique (array : list T) : list T := fold_left set_add array [].

End Arrays.

End Arrays.

(** ** src/utils/index.ts: class names *)

Module ClassNames.

(** An argument of [cn]: a string, or one of [undefined], [null], [false]
    ([None]). *)
Definition truthy_class (c : option string) : option string :=
  match c with
  | Some EmptyString => None
  | other => other
  end.

(** [classes.filter(Boolean)] *)
Definition kept (classes : list (option string)) : list string :=
  omap truthy_class classes.

Definition cn (classes : list (option string)) : string :=
  String.concat " " (kept classes).

Definition conditionalClass (condition : bool) (trueClass : string)
    (falseClass : option string) : string :=
  if condition then trueClass else default EmptyString falseClass.

End ClassNames.

(** ** src/utils/index.ts: memoize

    The memoized function, one call at a time: [func] may read and write a
    state of its own; the cache maps the serialized arguments to results. *)

Module Memoize.

Section Memoize.
Context {A R S : Type}.
Variable stringify_args : A -> string.        (* JSON.stringify(args) *)
Variable func : A -> S -> R * S.

Definition call (args : A) (cache : gmap string R) (s : S) : R * gmap string R * S :=
  let key := stringify_args args in
  match cache !! key with
  | Some result => (result, cache, s)
  | None =>
      let '(result, s') := func args s in
      (result, <[key := result]> cache, s')
  end.

(** A sequence of calls, from a cache and a state; the results in order. *)
Fixpoint calls (l : list A) (cache : gmap string R) (s : S)
  : list R * gmap string R * S :=
  match l with
  | [] => ([], cache, s)
  | args :: l' =>
      let '(r, cache', s') := call args cache s in
      let '(rs, cache'', s'') := calls l' cache' s' in
      (r :: rs, cache'', s'')
  end.

(** Every cached result is the result of [f] at arguments with that key. *)
Definition cache_sound (f : A -> R) (cache : gmap string R) : Prop :=
  forall k r, cache !! k = Some r -> exists a, stringify_args a = k /\ r = f a.

End Memoize.

(** A function that squares its argument and counts its calls. *)
Definition counted_square (a : Z) (n : nat) : Z * nat := (a * a, S n).

End Memoize.

(** ** src/utils/index.ts: retry

    [fn] is given by the outcome of each of its calls, in order.  The run
    records how often [fn] was called and every delay that was awaited. *)

Module Retry.
Import Web.

Inductive Settled (T : Type) :=
| Resolved (v : T)
| Rejected (message : string)
| RejectedUndefined.            (* [throw lastError!] with nothing assigned *)
Arguments Resolved {T} v.
Arguments Rejected {T} message.
Arguments RejectedUndefined {T}.

Record Run (T : Type) := mkRun {
  settled : Settled T;
  called  : nat;
  delays  : list Z
}.
Arguments settled {T} _.
Arguments called {T} _.
Arguments delays {T} _.

Section Retry.
Context {T : Type}.
Variable fn : nat -> Completion T.

(** The [for] loop from [attempt], after [n] calls of [fn]. *)
Fixpoint retry_loop (fuel : nat) (maxAttempts delayMs attempt : Z)
    (lastError : option string) (n : nat) (waited : list Z) : option (Run T) :=
  match fuel with
  | O => None
  | S fuel' =>
      if attempt <=? maxAttempts then
        match fn n with
        | Returns v => Some {| settled := Resolved v; called := S n; delays := waited |}
        | Throws err =>
            if attempt =? maxAttempts
            then Some {| settled := Rejected err; called := S n; delays := waited |}
            else retry_loop fuel' maxAttempts delayMs (attempt + 1) (Some err) (S n)
                   (waited ++ [delayMs * attempt])
        end
      else
        Some {| settled := match lastError with
                           | Some err => Rejected err
                           | None => RejectedUndefined
                           end;
                called := n; delays := waited |}
  end.

Definition retry (fuel : nat) (maxAttempts delayMs : Z) : option (Run T) :=
  retry_loop fuel maxAttempts delayMs 1 None 0%nat [].

(** Call [j] of [fn] throws. *)
Definition fails (j : nat) : Prop := exists err, fn j = Throws err.

(** The delays awaited before call [n] of [fn]: [delayMs * 1], ...,
    [delayMs * n]. *)
Definition delays_before (delayMs : Z) (n : nat) : list Z :=
  map (fun j => delayMs * Z.of_nat (S j)) (seq 0 n).

End Retry.

(** An [fn] that fails [k] times and then succeeds. *)
Definition flaky (k : nat) : nat -> Completion Z :=
  fun n => if (n <? k)%nat then Throws "busy" else Returns (Z.of_nat n).

End Retry.

(** ** src/utils/index.ts: formatRelativeTime

    Dates are milliseconds since the epoch; [formatDate] is the [Intl]
    formatter the last branch falls back to. *)

Module Format.
Import JsonInstances.

Definition formatRelativeTime (formatDate : Z -> string) (now date : Z) : string :=
  let diffInSeconds := (now - date) / 1000 in
  if diffInSeconds <? 60 then "just now"
  else if diffInSeconds <? 3600
  then String.append (stringify_number (diffInSeconds / 60)) " minutes ago"
  else if diffInSeconds <? 86400
  then String.append (stringify_number (diffInSeconds / 3600)) " hours ago"
  else if diffInSeconds <? 2592000
  then String.append (stringify_number (diffInSeconds / 86400)) " days ago"
  else formatDate date.

End Format.

(** ** src/utils/errorUtils.tsx: the registry of GlobalErrorHandler

    A handler is known by its identity; [run] is what calling it does:
    return, or throw. *)

Module ErrorHandlers.
Import Web.

Inductive Event (H : Type) :=
| Invoked (h : H) (message : string)
| ConsoleError (text : string).
Arguments Invoked {H} h message.
Arguments ConsoleError {H} text.

Section Registry.
Context {H : Type} `{EqDecision H}.
Variable run : H -> string -> Completion unit.

Definition addErrorHandler (handler : H) (errorHandlers : list H) : list H :=
  errorHandlers ++ [handler].

Definition removeErrorHandler (handler : H) (errorHandlers : list H) : list H :=
  filter (fun h => h <> handler) errorHandlers.

(** What happens, in order, when the handlers are notified of an error. *)
Fixpoint notifyHandlers (message : string) (errorHandlers : list H) : list (Event H) :=
  match errorHandlers with
  | [] => []
  | handler :: rest =>
      match run handler message with
      | Returns _ => Invoked handler message :: notifyHandlers message rest
      | Throws err =>
          Invoked handler message
            :: ConsoleError (String.append "Error in error handler: " err)
            :: notifyHandlers message rest
      end
  end.

(** The handlers an event trace shows as invoked. *)
Definition invoked (trace : list (Event H)) : list H :=
  omap (fun e => match e with Invoked h _ => Some h | ConsoleError _ => None end) trace.

End Registry.

End ErrorHandlers.

(** ** src/components/Counter.tsx: the Counter component *)

Module CounterComponent.

(** [useState(initial)], with [initial = 0] by default. *)
Definition Counter (initial : option Z) : Z := default 0 initial.

Definition handleIncrement (prev : Z) : Z := prev + 1.
Definition handleDecrement (prev : Z) : Z := Z.max 0 (prev - 1).

(** The [disabled] attribute of the decrement button. *)
Definition decrement_disabled (count : Z) : bool := count =? 0.

Inductive Click := ClickIncrement | ClickDecrement.

(** A click on a disabled button runs no handler. *)
Definition click (count : Z) (c : Click) : Z :=
  match c with
  | ClickIncrement => handleIncrement count
  | ClickDecrement => if decrement_disabled count then count else handleDecrement count
  end.

Definition clicks (count : Z) (cs : list Click) : Z := fold_left click cs count.

(** The same user gesture on the [useCounter] hook. *)
Definition as_op (c : Click) : Counter.Op :=
  match c with
  | ClickIncrement => Counter.OpIncrement
  | ClickDecrement => Counter.OpDecrement
  end.

Definition initial_only (initial : Z) : Types.PartialCounterConfig :=
  {| Types.initialValue_opt := Some initial; Types.minValue_opt := None;
     Types.maxValue_opt := None; Types.step_opt := None;
     Types.enableHistory_opt := None; Types.enablePersistence_opt := None |}.

End CounterComponent.

(** ** The context provider's reducer: appReducer

    The [theme] slice holds whatever [THEME_CHANGE] carries; it starts as an
    empty object ([None]). *)

Module AppContext.
Import Ambient Types.

Record AppSettings := mkSettings {
  soundEnabled      : bool;
  animationsEnabled : bool;
  autoSave          : bool;
  language          : string;
  notifications     : bool
}.

(** [DeepPartial<AppSettings>] *)
Record PartialAppSettings := mkPartialSettings {
  soundEnabled_opt      : option bool;
  animationsEnabled_opt : option bool;
  autoSave_opt          : option bool;
  language_opt          : option string;
  notifications_opt     : option bool
}.

Record AnalyticsData := mkAnalytics {
  totalInteractions : Z;
  sessionStartTime  : Z;
  counterClicks     : Z;
  themeChanges      : Z;
  errorCount        : Z
}.

Record CounterError := mkCounterError {
  message     : string;
  code        : string;
  error_value : option Z
}.

Section App.
Context {Theme : Type}.

Record AppState := mkAppState {
  counter   : CounterState;
  theme     : option Theme;
  settings  : AppSettings;
  analytics : AnalyticsData
}.

Inductive AppAction :=
| COUNTER_INCREMENT
| COUNTER_DECREMENT
| COUNTER_RESET
| COUNTER_SET_VALUE (payload : Z)
| COUNTER_SET_ERROR (payload : option CounterError)
| SETTINGS_UPDATE (payload : PartialAppSettings)
| ANALYTICS_INCREMENT_INTERACTIONS
| ANALYTICS_TRACK_ERROR
| THEME_CHANGE (payload : Theme).

Definition initialAppState (sessionStart : Z) : AppState :=
  {| counter := {| value := 0; isLoading := false; error := None; history := [] |};
     theme := None;
     settings := {| soundEnabled := true; animationsEnabled := true; autoSave := true;
                    language := "en"; notifications := true |};
     analytics := {| totalInteractions := 0; sessionStartTime := sessionStart;
                     counterClicks := 0; themeChanges := 0; errorCount := 0 |} |}.

(** The history entry literal of the four counter cases. *)
Definition entry_literal (kind : string) (prev next : Z) : Eff CounterHistoryEntry :=
  let* i := randomUUID in
  let* t := newDate in
  let* c := newDate in
  let* u := newDate in
  ret {| id := i; action := kind; previousValue := prev; newValue := next;
         timestamp := t; createdAt := c; updatedAt := u |}.

Definition with_counter (state : AppState) (c : CounterState) (a : AnalyticsData)
  : AppState :=
  {| counter := c; theme := theme state; settings := settings state; analytics := a |}.

Definition with_analytics (state : AppState) (a : AnalyticsData) : AppState :=
  {| counter := counter state; theme := theme state;
     settings := settings state; analytics := a |}.

Definition moved (c : CounterState) (v : Z) (e : CounterHistoryEntry) : CounterState :=
  {| value := v; isLoading := isLoading c; error := error c;
     history := history c ++ [e] |}.

Definition interactions (a : AnalyticsData) (interacted clicked : Z) : AnalyticsData :=
  {| totalInteractions := totalInteractions a + interacted;
     sessionStartTime := sessionStartTime a;
     counterClicks := counterClicks a + clicked;
     themeChanges := themeChanges a;
     errorCount := errorCount a |}.

(** [{ ...state.settings, ...action.payload }] *)
Definition mergeSettings (s : AppSettings) (p : PartialAppSettings) : AppSettings :=
  {| soundEnabled := default (soundEnabled s) (soundEnabled_opt p);
     animationsEnabled := default (animationsEnabled s) (animationsEnabled_opt p);
     autoSave := default (autoSave s) (autoSave_opt p);
     language := default (language s) (language_opt p);
     notifications := default (notifications s) (notifications_opt p) |}.

(** [action.payload?.message || null] *)
Definition message_or_null (payload : option CounterError) : option string :=
  match payload with
  | Some e => match message e with EmptyString => None | m => Some m end
  | None => None
  end.

Definition appReducer (state : AppState) (action : AppAction) : Eff AppState :=
  match action with
  | COUNTER_INCREMENT =>
      let* e := entry_literal INCREMENT (value (counter state)) (value (counter state) + 1) in
      ret (with_counter state
             (moved (counter state) (value (counter state) + 1) e)
             (interactions (analytics state) 1 1))
  | COUNTER_DECREMENT =>
      let newValue := Z.max 0 (value (counter state) - 1) in
      let* e := entry_literal DECREMENT (value (counter state)) newValue in
      ret (with_counter state (moved (counter state) newValue e)
             (interactions (analytics state) 1 1))
  | COUNTER_RESET =>
      let* e := entry_literal RESET (value (counter state)) 0 in
      ret (with_counter state (moved (counter state) 0 e)
             (interactions (analytics state) 1 0))
  | COUNTER_SET_VALUE payload =>
      let* e := entry_literal SET_VALUE (value (counter state)) payload in
      ret (with_counter state (moved (counter state) payload e) (analytics state))
  | COUNTER_SET_ERROR payload =>
      ret (with_counter state
             {| value := value (counter state); isLoading := isLoading (counter state);
                error := message_or_null payload; history := history (counter state) |}
             match payload with
             | Some _ =>
                 {| totalInteractions := totalInteractions (analytics state);
                    sessionStartTime := sessionStartTime (analytics state);
                    counterClicks := counterClicks (analytics state);
                    themeChanges := themeChanges (analytics state);
                    errorCount := errorCount (analytics state) + 1 |}
             | None => analytics state
             end)
  | SETTINGS_UPDATE payload =>
      ret {| counter := counter state; theme := theme state;
             settings := mergeSettings (settings state) payload;
             analytics := analytics state |}
  | ANALYTICS_INCREMENT_INTERACTIONS =>
      ret (with_analytics state (interactions (analytics state) 1 0))
  | ANALYTICS_TRACK_ERROR =>
      ret (with_analytics state
             {| totalInteractions := totalInteractions (analytics state);
                sessionStartTime := sessionStartTime (analytics state);
                counterClicks := counterClicks (analytics state);
                themeChanges := themeChanges (analytics state);
                errorCount := errorCount (analytics state) + 1 |})
  | THEME_CHANGE payload =>
      ret {| counter := counter state; theme := Some payload;
             settings := settings state;
             analytics :=
               {| totalInteractions := totalInteractions (analytics state) + 1;
                  sessionStartTime := sessionStartTime (analytics state);
                  counterClicks := counterClicks (analytics state);
                  themeChanges := themeChanges (analytics state) + 1;
                  errorCount := errorCount (analytics state) |} |}
  end.

(** A sequence of dispatches. *)
Fixpoint dispatch_all (state : AppState) (actions : list AppAction) : Eff AppState :=
  match actions with
  | [] => ret state
  | a :: rest => let* state' := appReducer state a in dispatch_all state' rest
  end.

(** The actions each analytics counter counts. *)
Definition is_click (a : AppAction) : bool :=
  match a with
  | COUNTER_INCREMENT | COUNTER_DECREMENT => true
  | _ => false
  end.

Definition is_theme_change (a : AppAction) : bool :=
  match a with
  | THEME_CHANGE _ => true
  | _ => false
  end.

Definition is_interaction (a : AppAction) : bool :=
  match a with
  | COUNTER_INCREMENT | COUNTER_DECREMENT | COUNTER_RESET
  | ANALYTICS_INCREMENT_INTERACTIONS | THEME_CHANGE _ => true
  | _ => false
  end.

Definition is_error_report (a : AppAction) : bool :=
  match a with
  | COUNTER_SET_ERROR (Some _) | ANALYTICS_TRACK_ERROR => true
  | _ => false
  end.

Definition occurrences (p : AppAction -> bool) (actions : list AppAction) : Z :=
  Z.of_nat (length (filter (fun a => p a = true) actions)).

(** The counter action a context action stands for, if any. *)
Definition counter_action (a : AppAction) : option Counter.CounterAction :=
  match a with
  | COUNTER_INCREMENT => Some {| Counter.type := INCREMENT; Counter.payload := None |}
  | COUNTER_DECREMENT => Some {| Counter.type := DECREMENT; Counter.payload := None |}
  | COUNTER_RESET => Some {| Counter.type := RESET; Counter.payload := None |}
  | COUNTER_SET_VALUE v => Some {| Counter.type := SET_VALUE; Counter.payload := Some v |}
  | _ => None
  end.

(** Every counted click and every theme change is a counted interaction. *)
Definition analytics_ok (a : AnalyticsData) : Prop :=
  0 <= counterClicks a
  /\ 0 <= themeChanges a
  /\ counterClicks a + themeChanges a <= totalInteractions a
  /\ 0 <= errorCount a.

End App.
Arguments AppState Theme : clear implicits.
Arguments AppAction Theme : clear implicits.

End AppContext.

(** ** Sessions: sequences of calls on the hooks *)

Module Sessions.
Import Ambient Types Web.

(** A history that leads from [start] to [stop]: every entry starts where
    the one before it ended. *)
Fixpoint chained (start : Z) (h : list CounterHistoryEntry) (stop : Z) : Prop :=
  match h with
  | [] => start = stop
  | e :: h' => previousValue e = start /\ chained (newValue e) h' stop
  end.

(** The readings of the clock an entry holds, in the order they were taken. *)
Definition readings (e : CounterHistoryEntry) : list Z :=
  [timestamp e; createdAt e; updatedAt e].

(** Where the world of the hook stands after [n] entries were written. *)
Definition stamped (w : World) (h : Counter.Hook) : Prop :=
  uuid_source (Counter.world h) = uuid_source w
  /\ clock (Counter.world h) = clock w
  /\ uuid_calls (Counter.world h) = (uuid_calls w + length (history (Counter.state h)))%nat
  /\ clock_reads (Counter.world h) = (clock_reads w + 3 * length (history (Counter.state h)))%nat
  /\ forall k e, history (Counter.state h) !! k = Some e ->
       id e = uuid_source w (uuid_calls w + k)%nat
       /\ readings e = [clock w (clock_reads w + 3 * k)%nat;
                        clock w (clock_reads w + 3 * k + 1)%nat;
                        clock w (clock_reads w + 3 * k + 2)%nat].

(** What can happen to a mounted [useTheme] hook. *)
Inductive ThemeOp :=
| Toggle
| SetTheme (mode : ThemeMode)
| SystemChange (matches : bool).

Definition theme_step (hs : Theme.Hook * Storage) (o : ThemeOp) : Theme.Hook * Storage :=
  match o with
  | Toggle => Theme.toggleTheme (fst hs) (snd hs)
  | SetTheme mode => Theme.setTheme mode (fst hs) (snd hs)
  | SystemChange matches => (Theme.handleChange matches (fst hs), snd hs)
  end.

Definition theme_session (hs : Theme.Hook * Storage) (ops : list ThemeOp)
  : Theme.Hook * Storage :=
  fold_left theme_step ops hs.

(** A world whose uuid generator counts and whose clock advances. *)
Definition counting_world : World :=
  {| uuid_source := fun n => JsonInstances.stringify_number (Z.of_nat n);
     uuid_calls := 0%nat;
     clock := fun n => 1000 + Z.of_nat n;
     clock_reads := 0%nat |}.

(** The theme entry of a storage is absent, or is a mode the hook wrote. *)
Definition written_by_app (st : Storage) : Prop :=
  items st !! Theme.theme_key = None
  \/ exists mode : ThemeMode,
       items st !! Theme.theme_key = Some (JsonInstances.stringify_theme mode).

(** A storage that accepts no write. *)
Definition full_storage : Storage :=
  {| items := ∅; accessible := true; quota := 0 |}.

End Sessions.

(** * Properties of the counter reducer and of useCounter *)

Module CounterSpec.
Import Ambient Types Counter.

(** ** The reducer, case by case *)

Lemma createHistoryEntry_eq kind prev next w :
  createHistoryEntry kind prev next w = (entry_of kind prev next w, world_after_entry w).
Proof. reflexivity. Qed.

Lemma entry_of_fields kind prev next w :
  action (entry_of kind prev next w) = kind
  /\ previousValue (entry_of kind prev next w) = prev
  /\ newValue (entry_of kind prev next w) = next.
Proof. repeat split. Qed.

Lemma counterReducer_recognized s a w :
  recognized (type a) = true ->
  counterReducer s a w =
    (with_value_and_entry s (target s a) (entry_of (type a) (value s) (target s a) w),
     world_after_entry w).
Proof.
  unfold recognized, counterReducer, target. intros Hr.
  destruct (String.eqb_spec (type a) INCREMENT) as [->|_]; [reflexivity|].
  destruct (String.eqb_spec (type a) DECREMENT) as [->|_]; [reflexivity|].
  destruct (String.eqb_spec (type a) RESET) as [->|_]; [reflexivity|].
  destruct (String.eqb_spec (type a) SET_VALUE) as [->|_]; [reflexivity|].
  discriminate Hr.
Qed.

Lemma counterReducer_unrecognized s a w :
  recognized (type a) = false -> counterReducer s a w = (s, w).
Proof.
  unfold recognized, counterReducer. intros Hr.
  destruct (String.eqb (type a) INCREMENT); [discriminate|].
  destruct (String.eqb (type a) DECREMENT); [discriminate|].
  destruct (String.eqb (type a) RESET); [discriminate|].
  destruct (String.eqb (type a) SET_VALUE); [discriminate|].
  reflexivity.
Qed.


(** ** The hook's callbacks on the value and the config *)

Lemma dispatch_config h a : config (dispatch h a) = config h.
Proof. unfold dispatch. destruct (counterReducer (state h) a (world h)). reflexivity. Qed.

Lemma dispatch_state h a :
  state (dispatch h a) = fst (counterReducer (state h) a (world h)).
Proof. unfold dispatch. destruct (counterReducer (state h) a (world h)). reflexivity. Qed.

Lemma run_op_config h o : config (run_op h o) = config h.
Proof.
  destruct o; simpl; unfold increment, decrement, reset, setValue;
    repeat case_match; rewrite ?dispatch_config; reflexivity.
Qed.

Lemma increment_value h :
  value (state (increment h)) =
    if value (state h) <? maxValue (config h) then value (state h) + 1
    else value (state h).
Proof. unfold increment. case_match; rewrite ?dispatch_state; reflexivity. Qed.

Lemma decrement_value h :
  value (state (decrement h)) =
    if value (state h) >? minValue (config h) then Z.max 0 (value (state h) - 1)
    else value (state h).
Proof. unfold decrement. case_match; rewrite ?dispatch_state; reflexivity. Qed.

Lemma reset_value h : value (state (reset h)) = 0.
Proof. unfold reset. rewrite dispatch_state. reflexivity. Qed.

Lemma setValue_value v h :
  value (state (setValue v h)) =
    Z.max (minValue (config h)) (Z.min (maxValue (config h)) v).
Proof. unfold setValue. rewrite dispatch_state. reflexivity. Qed.


Lemma run_op_in_bounds h o :
  zero_in_bounds (config h) -> in_bounds h -> in_bounds (run_op h o).
Proof.
  unfold zero_in_bounds, in_bounds. intros Hz Hb.
  rewrite run_op_config.
  destruct o; cbn [run_op].
  - rewrite increment_value. destruct (Z.ltb_spec (value (state h)) (maxValue (config h))); lia.
  - rewrite decrement_value. rewrite Z.gtb_ltb.
    destruct (Z.ltb_spec (minValue (config h)) (value (state h))); lia.
  - rewrite reset_value. lia.
  - rewrite setValue_value. lia.
Qed.

Lemma trace_in_bounds ops : forall h,
  zero_in_bounds (config h) -> in_bounds h -> Forall in_bounds (trace h ops).
Proof.
  induction ops as [|o ops IH]; intros h Hz Hb; simpl.
  - constructor.
  - pose proof (run_op_in_bounds h o Hz Hb) as Hb'.
    constructor; [exact Hb'|].
    apply IH; [rewrite run_op_config; exact Hz | exact Hb'].
Qed.


(** ** The bound invariant *)




(** The two conditions of the amended C1 are also necessary: a hook whose
    value stays within the bounds whatever is called has 0 within its bounds
    and is itself within them. *)
Lemma necessary_conditions_for_bounds (h : Hook) :
  (forall ops, Forall in_bounds (trace h ops)) ->
  zero_in_bounds (config h) /\ in_bounds h.
Proof.
  intros Hall.
  pose proof (Hall [OpReset]) as Hr.
  pose proof (Hall [OpIncrement]) as Hi.
  pose proof (Hall [OpDecrement]) as Hd.
  cbn [trace] in Hr, Hi, Hd.
  apply Forall_cons_1 in Hr as [Hr _].
  apply Forall_cons_1 in Hi as [Hi _].
  apply Forall_cons_1 in Hd as [Hd _].
  unfold in_bounds, zero_in_bounds in *.
  rewrite run_op_config in Hr, Hi, Hd. cbn [run_op] in Hr, Hi, Hd.
  rewrite reset_value in Hr. rewrite increment_value in Hi. rewrite decrement_value in Hd.
  rewrite Z.gtb_ltb in Hd.
  destruct (Z.ltb_spec (value (state h)) (maxValue (config h)));
    destruct (Z.ltb_spec (minValue (config h)) (value (state h))); lia.
Qed.

(** ** Increment *)

(** C2, as stated, fails: dispatching Increment at [value = maxValue = 10]
    gives 11, not [min (10 + 1) 10]; and with [step = 5] the hook's
    [increment] takes 0 to 1, not to [min (0 + 5) 10]. *)
Lemma increment_ignores_step_and_max :
  (let h := useCounter (bounds 10 0 10) world0 in
   value (state (dispatch h (act INCREMENT)))
     <> Z.min (value (state h) + step (config h)) (maxValue (config h)))
  /\ (let h := useCounter (bounds_step 0 0 10 5) world0 in
      value (state (increment h))
        <> Z.min (value (state h) + step (config h)) (maxValue (config h))).
Proof. split; vm_compute; discriminate. Qed.

(** The reducer itself adds 1 and looks at no bound. *)
Lemma reducer_increment (s : CounterState) (w : World) :
  value (fst (counterReducer s (act INCREMENT) w)) = value s + 1.
Proof. reflexivity. Qed.

(** C2 (amended): on a hook whose [step] is 1, the [increment] callback
    yields [min (value + step) maxValue] whenever the value is at most
    [maxValue]; at or above [maxValue] it dispatches nothing, so the hook is
    unchanged: at [maxValue] the value stays [maxValue]. *)
Theorem increment_clamped_by_gate (h : Hook) :
  step (config h) = 1 ->
  (value (state h) <= maxValue (config h) ->
     value (state (increment h))
       = Z.min (value (state h) + step (config h)) (maxValue (config h)))
  /\ (value (state h) >= maxValue (config h) -> increment h = h).
Proof.
  intros Hstep. split.
  - intros Hle. rewrite increment_value, Hstep.
    destruct (Z.ltb_spec (value (state h)) (maxValue (config h))); lia.
  - intros Hge. unfold increment.
    destruct (Z.ltb_spec (value (state h)) (maxValue (config h))); [lia | reflexivity].
Qed.

Lemma increment_clamped_by_gate_witness :
  let h := useCounter (bounds 9 0 10) world0 in
  step (config h) = 1
  /\ value (state (increment h)) = 10
  /\ increment (increment h) = increment h.
Proof.
  cbv zeta. split; [reflexivity|]. split.
  - rewrite (proj1 (increment_clamped_by_gate (useCounter (bounds 9 0 10) world0) eq_refl)
               ltac:(vm_compute; discriminate)).
    reflexivity.
  - apply (proj2 (increment_clamped_by_gate
                    (increment (useCounter (bounds 9 0 10) world0)) eq_refl)).
    vm_compute. discriminate.
Defined.

(** ** Decrement *)

(** C3, as stated, fails: with [minValue = -5], Decrement takes 0 to
    [max 0 (0 - 1) = 0], not to [max (0 - 1) (-5) = -1]; and with [step = 2]
    it takes 5 to 4, not to [max (5 - 2) 0 = 3]. *)
Lemma decrement_floor_is_zero :
  (let h := useCounter (bounds 0 (-5) 10) world0 in
   value (state (decrement h))
     <> Z.max (value (state h) - step (config h)) (minValue (config h)))
  /\ (let h := useCounter (bounds_step 5 0 10 2) world0 in
      value (state (decrement h))
        <> Z.max (value (state h) - step (config h)) (minValue (config h))).
Proof. split; vm_compute; discriminate. Qed.

(** The reducer itself subtracts 1 and stops at 0, whatever the config. *)
Lemma reducer_decrement (s : CounterState) (w : World) :
  value (fst (counterReducer s (act DECREMENT) w)) = Z.max 0 (value s - 1).
Proof. reflexivity. Qed.

(** C3 (amended): on a hook whose [step] is 1 and whose [minValue] is not
    negative, the [decrement] callback yields [max (value - step) minValue]
    whenever the value is at least [minValue]; at [value = minValue] it
    dispatches nothing and the value is still [minValue]. *)
Theorem decrement_clamped_by_gate (h : Hook) :
  step (config h) = 1 ->
  0 <= minValue (config h) ->
  (minValue (config h) <= value (state h) ->
     value (state (decrement h))
       = Z.max (value (state h) - step (config h)) (minValue (config h)))
  /\ (value (state h) = minValue (config h) ->
       decrement h = h /\ value (state (decrement h)) = minValue (config h)).
Proof.
  intros Hstep Hmin. split.
  - intros Hle. rewrite decrement_value, Z.gtb_ltb, Hstep.
    destruct (Z.ltb_spec (minValue (config h)) (value (state h))); lia.
  - intros He. unfold decrement. rewrite He, Z.gtb_ltb, Z.ltb_irrefl.
    split; [reflexivity | exact He].
Qed.

Lemma decrement_clamped_by_gate_witness :
  let h := useCounter (bounds 3 2 10) world0 in
  step (config h) = 1 /\ 0 <= minValue (config h)
  /\ value (state (decrement h)) = 2
  /\ decrement (decrement h) = decrement h.
Proof.
  cbv zeta. split; [reflexivity|]. split; [vm_compute; discriminate|]. split.
  - rewrite (proj1 (decrement_clamped_by_gate (useCounter (bounds 3 2 10) world0)
                      eq_refl ltac:(vm_compute; discriminate))
               ltac:(vm_compute; discriminate)).
    reflexivity.
  - apply (proj2 (decrement_clamped_by_gate
                    (decrement (useCounter (bounds 3 2 10) world0))
                    eq_refl ltac:(vm_compute; discriminate))).
    reflexivity.
Defined.

(** ** History *)

(** C4: a dispatch of a recognized action returns the input history with
    exactly one entry appended; the entry records the action kind, the value
    before the dispatch as [previousValue] and the value after it as
    [newValue]. *)
Theorem dispatch_appends_one_entry (s : CounterState) (a : CounterAction) (w : World) :
  recognized (type a) = true ->
  exists e : CounterHistoryEntry,
    history (fst (counterReducer s a w)) = history s ++ [e]
    /\ length (history (fst (counterReducer s a w))) = S (length (history s))
    /\ (forall i x, history s !! i = Some x ->
                    history (fst (counterReducer s a w)) !! i = Some x)
    /\ action e = type a
    /\ previousValue e = value s
    /\ newValue e = value (fst (counterReducer s a w)).
Proof.
  intros Hr. rewrite (counterReducer_recognized s a w Hr). cbn [fst].
  exists (entry_of (type a) (value s) (target s a) w).
  cbn [with_value_and_entry history value].
  repeat split.
  - rewrite length_app. cbn [length]. lia.
  - intros i x Hix. apply lookup_app_l_Some. exact Hix.
Qed.

Lemma dispatch_appends_one_entry_witness :
  recognized (type {| type := SET_VALUE; payload := Some 4 |}) = true
  /\ exists e : CounterHistoryEntry,
       history (fst (counterReducer failed_state {| type := SET_VALUE; payload := Some 4 |} world0))
         = [e]
       /\ previousValue e = 0 /\ newValue e = 4.
Proof.
  split; [reflexivity|].
  destruct (dispatch_appends_one_entry failed_state
              {| type := SET_VALUE; payload := Some 4 |} world0 eq_refl)
    as (e & Hh & _ & _ & _ & Hp & Hn).
  exists e. split; [exact Hh|]. split; [exact Hp|]. rewrite Hn. reflexivity.
Defined.

(** The history the hook accumulates has one entry per dispatch, so its
    length never decreases along a sequence of calls. *)
Lemma run_op_history_grows (h : Hook) (o : Op) :
  exists l, history (state (run_op h o)) = history (state h) ++ l /\ (length l <= 1)%nat.
Proof.
  assert (Hd : forall a, recognized (type a) = true ->
            exists l, history (state (dispatch h a)) = history (state h) ++ l
                      /\ (length l <= 1)%nat).
  { intros a Hr. rewrite dispatch_state, (counterReducer_recognized _ a _ Hr).
    eexists [_]. split; [reflexivity|]. cbn [length]. lia. }
  assert (Hn : exists l, history (state h) = history (state h) ++ l /\ (length l <= 1)%nat).
  { exists []. rewrite app_nil_r. split; [reflexivity|]. cbn [length]. lia. }
  destruct o; cbn [run_op]; unfold increment, decrement, reset, setValue;
    repeat case_match; try exact Hn; apply Hd; reflexivity.
Qed.

(** ** The error field *)



(** ** Boundary flags *)

(** C10: [isAtMin] is true exactly when [value <= minValue] and [isAtMax]
    exactly when [value >= maxValue]; the initial value is taken from the
    config as it is, so an initial value below [minValue] reports
    [isAtMin]. *)
Theorem boundary_flags_inclusive (h : Hook) :
  (isAtMin h = true <-> value (state h) <= minValue (config h))
  /\ (isAtMax h = true <-> value (state h) >= maxValue (config h))
  /\ (forall (initialConfig : PartialCounterConfig) (w : World),
        let h0 := useCounter initialConfig w in
        value (state h0) = initialValue (config h0)
        /\ (initialValue (config h0) < minValue (config h0) -> isAtMin h0 = true)
        /\ (initialValue (config h0) > maxValue (config h0) -> isAtMax h0 = true)).
Proof.
  unfold isAtMin, isAtMax. split; [|split].
  - apply Z.leb_le.
  - rewrite Z.geb_leb, Z.leb_le. lia.
  - intros ic w. cbv zeta. split; [reflexivity|]. split; intros Hlt.
    + apply Z.leb_le. cbn [useCounter state value config] in *. lia.
    + rewrite Z.geb_leb. apply Z.leb_le. cbn [useCounter state value config] in *. lia.
Qed.

Lemma boundary_flags_inclusive_witness :
  let h := useCounter (bounds (-3) 0 10) world0 in
  value (state h) <= minValue (config h) /\ isAtMin h = true /\ isAtMax h = false.
Proof.
  cbv zeta. split; [vm_compute; discriminate|]. split.
  - apply (proj1 (boundary_flags_inclusive (useCounter (bounds (-3) 0 10) world0))).
    vm_compute. discriminate.
  - reflexivity.
Defined.

End CounterSpec.

(** * Reference identity of the reducer's result *)

Module RefsSpec.
Import Ambient Types Counter.

(** On a live reference the reducer on references computes what the
    reducer on states computes, and a recognized action allocates. *)
Lemma reducer_on_refs (h : Refs.Heap) (r : Refs.ref) (s : CounterState)
    (a : CounterAction) (w : World) :
  h !! r = Some s ->
  Refs.counterReducer h r a w =
    if recognized (type a)
    then Some (length h, h ++ [fst (counterReducer s a w)], snd (counterReducer s a w))
    else Some (r, h, w).
Proof.
  intros Hs. unfold Refs.counterReducer, recognized, counterReducer, Refs.alloc.
  rewrite Hs. cbn [mbind option_bind].
  destruct (String.eqb (type a) INCREMENT); [reflexivity|].
  destruct (String.eqb (type a) DECREMENT); [reflexivity|].
  destruct (String.eqb (type a) RESET); [reflexivity|].
  destruct (String.eqb (type a) SET_VALUE); reflexivity.
Qed.


(** C6: for an action whose kind is none of the four recognized kinds the
    reducer returns normally, and returns the very reference it was given,
    with the store of state objects and the ambient world untouched; on
    states, the result is the input state. *)
Theorem unrecognized_action_is_identity (h : Refs.Heap) (r : Refs.ref)
    (a : CounterAction) (w : World) :
  recognized (type a) = false ->
  is_Some (h !! r) ->
  Refs.counterReducer h r a w = Some (r, h, w)
  /\ (forall s : CounterState, counterReducer s a w = (s, w)).
Proof.
  intros Hr [s Hs]. split.
  - rewrite (reducer_on_refs h r s a w Hs), Hr. reflexivity.
  - intros s'. apply CounterSpec.counterReducer_unrecognized. exact Hr.
Qed.

Lemma unrecognized_action_is_identity_witness :
  recognized (type (act "MULTIPLY")) = false
  /\ is_Some ([failed_state] !! 0%nat)
  /\ Refs.counterReducer [failed_state] 0%nat (act "MULTIPLY") world0
      = Some (0%nat, [failed_state], world0).
Proof.
  split; [reflexivity|]. split; [eexists; reflexivity|].
  apply (unrecognized_action_is_identity [failed_state] 0%nat (act "MULTIPLY") world0).
  - reflexivity.
  - eexists; reflexivity.
Defined.

End RefsSpec.

(** * Properties of the persisted store *)

Module StoreSpec.
Import Types Web JsonInstances.

Lemma setItem_returns (st st' : Storage) (key text : string) :
  setItem st key text = Returns st' ->
  accessible st' = true /\ items st' = <[key := text]> (items st).
Proof.
  unfold setItem. destruct (accessible st) eqn:Ha; [|discriminate].
  case_match; [|discriminate].
  intros [= <-]. cbn [accessible items]. split; reflexivity.
Qed.

Lemma getItem_after_setItem (st st' : Storage) (key text : string) :
  setItem st key text = Returns st' -> getItem st' key = Returns (Some text).
Proof.
  intros Hs. apply setItem_returns in Hs as [Ha Hi].
  unfold getItem. rewrite Ha, Hi, lookup_insert_eq. reflexivity.
Qed.

Lemma getItem_after_setItem_other (st st' : Storage) (key key' text : string) :
  key <> key' ->
  setItem st key text = Returns st' -> getItem st' key' = getItem st key'.
Proof.
  intros Hne Hs. pose proof Hs as Hs'. apply setItem_returns in Hs' as [Ha Hi].
  unfold getItem. rewrite Ha, Hi, lookup_insert_ne by exact Hne.
  unfold setItem in Hs. destruct (accessible st); [reflexivity | discriminate].
Qed.

Section Generic.
Context {T : Type} `{Json T}.

Lemma truthy_stringify (v : T) : truthy (Some (stringify v)) = Some (stringify v).
Proof.
  pose proof (stringify_nonempty v) as Hne.
  unfold truthy. destruct (stringify v); [contradiction | reflexivity].
Qed.

(** Reading never writes. *)
Lemma useLocalStorage_storage (key : string) (d : T) (st : Storage) :
  snd (LocalStorage.useLocalStorage key d st) = st.
Proof.
  unfold LocalStorage.useLocalStorage, LocalStorage.initialize.
  repeat case_match; reflexivity.
Qed.

Lemma unreadable_gives_default (key : string) (d : T) (st : Storage) :
  LocalStorage.unreadable (T := T) st key ->
  LocalStorage.storedValue (fst (LocalStorage.useLocalStorage key d st)) = d
  /\ Adapter.getItem (T := T) st key = None.
Proof.
  unfold LocalStorage.useLocalStorage, LocalStorage.initialize, Adapter.getItem, getItem.
  intros [Hn | (text & Ht & Hp)].
  - rewrite Hn. destruct (accessible st); split; reflexivity.
  - rewrite Ht. destruct (accessible st); [|split; reflexivity].
    unfold truthy. destruct text; [split; reflexivity|].
    rewrite Hp. split; reflexivity.
Qed.

(** What a write that the storage accepted leaves behind. *)
Lemma accepted_write_read_back (key : string) (v : T)
    (h : LocalStorage.Hook T) (st st' : Storage) :
  setItem st key (stringify v) = Returns st' ->
  LocalStorage.setValue key (inl v) h st
    = ({| LocalStorage.storedValue := v;
          LocalStorage.isLoading := LocalStorage.isLoading h;
          LocalStorage.error := None |}, st')
  /\ Adapter.getItem st' key = Some v.
Proof.
  intros Hs. pose proof (getItem_after_setItem _ _ _ _ Hs) as Hg. split.
  - unfold LocalStorage.setValue. rewrite Hs. reflexivity.
  - unfold Adapter.getItem. rewrite Hg, truthy_stringify. apply parse_stringify.
Qed.

(** C9: after a [set] of [v] under [key] that the storage accepted, the
    hook holds [v], and reading [key] again, whatever the default, gives
    [v]; through the adapter likewise.  Where the entry is absent or does
    not parse, reading gives the default (the adapter, which takes no
    default, gives [null]), and no reading modifies the storage. *)
Theorem store_round_trip (key : string) (v d : T)
    (h : LocalStorage.Hook T) (st st' : Storage) :
  (setItem st key (stringify v) = Returns st' ->
     LocalStorage.setValue key (inl v) h st
       = ({| LocalStorage.storedValue := v;
             LocalStorage.isLoading := LocalStorage.isLoading h;
             LocalStorage.error := None |}, st')
     /\ LocalStorage.storedValue (fst (LocalStorage.useLocalStorage key d st')) = v
     /\ Adapter.setItem st key v = (st', None)
     /\ Adapter.getItem st' key = Some v)
  /\ (LocalStorage.unreadable (T := T) st key ->
       LocalStorage.storedValue (fst (LocalStorage.useLocalStorage key d st)) = d
       /\ Adapter.getItem (T := T) st key = None)
  /\ snd (LocalStorage.useLocalStorage key d st) = st.
Proof.
  split; [|split].
  - intros Hs. pose proof (getItem_after_setItem _ _ _ _ Hs) as Hg.
    repeat split.
    + unfold LocalStorage.setValue. rewrite Hs. reflexivity.
    + unfold LocalStorage.useLocalStorage, LocalStorage.initialize.
      rewrite Hg, truthy_stringify, parse_stringify. reflexivity.
    + unfold Adapter.setItem. rewrite Hs. reflexivity.
    + unfold Adapter.getItem. rewrite Hg, truthy_stringify. apply parse_stringify.
  - apply unreadable_gives_default.
  - apply useLocalStorage_storage.
Qed.

(** A write the storage refuses still advances the value the hook holds,
    reports the failure in [error] and leaves the storage as it was. *)
Lemma refused_write_advances_hook (key : string) (v : T)
    (h : LocalStorage.Hook T) (st : Storage) (err : string) :
  setItem st key (stringify v) = Throws err ->
  LocalStorage.storedValue (fst (LocalStorage.setValue key (inl v) h st)) = v
  /\ LocalStorage.error (fst (LocalStorage.setValue key (inl v) h st))
     = Some (LocalStorage.write_failure err)
  /\ snd (LocalStorage.setValue key (inl v) h st) = st.
Proof. intros Hs. unfold LocalStorage.setValue. rewrite Hs. repeat split. Qed.

(** After [removeValue] on an accessible storage, reading gives the default. *)
Lemma removed_gives_default (key : string) (d d' : T)
    (h : LocalStorage.Hook T) (st : Storage) :
  accessible st = true ->
  let st' := snd (LocalStorage.removeValue key d h st) in
  LocalStorage.storedValue (fst (LocalStorage.removeValue key d h st)) = d
  /\ LocalStorage.storedValue (fst (LocalStorage.useLocalStorage key d' st')) = d'.
Proof.
  intros Ha. cbv zeta.
  unfold LocalStorage.removeValue, removeItem. rewrite Ha. cbn [fst snd].
  split; [reflexivity|].
  apply unreadable_gives_default. left. cbn [items]. apply lookup_delete_eq.
Qed.

End Generic.

Lemma store_round_trip_witness :
  let st := empty_storage 100 in
  let st' := storage_with "counter-value" "42" 100 in
  setItem st "counter-value" (stringify 42) = Returns st'
  /\ LocalStorage.storedValue (fst (LocalStorage.useLocalStorage "counter-value" 0 st')) = 42
  /\ Adapter.getItem st' "counter-value" = Some 42
  /\ LocalStorage.unreadable (T := Z) st "counter-value"
  /\ LocalStorage.storedValue (fst (LocalStorage.useLocalStorage "counter-value" 7 st)) = 7.
Proof.
  cbv zeta.
  pose proof (store_round_trip "counter-value" 42 0
                (LocalStorage.first_render 0) (empty_storage 100)
                (storage_with "counter-value" "42" 100)) as (Hset & _ & _).
  pose proof (store_round_trip "counter-value" 42 7
                (LocalStorage.first_render 7) (empty_storage 100)
                (storage_with "counter-value" "42" 100)) as (_ & Hget & _).
  assert (Hs : setItem (empty_storage 100) "counter-value" (stringify 42)
               = Returns (storage_with "counter-value" "42" 100)) by reflexivity.
  assert (Hu : LocalStorage.unreadable (T := Z) (empty_storage 100) "counter-value")
    by (left; reflexivity).
  destruct (Hset Hs) as (_ & Hv & _ & Ha).
  destruct (Hget Hu) as (Hd & _).
  repeat split; assumption.
Defined.

End StoreSpec.

(** * The persistence effect of the counter *)

Module PersistenceSpec.
Import Types Web JsonInstances Persistence.

(** A persisted counter value that the storage accepted is read back by the
    adapter; with persistence off the storage is not touched. *)
Lemma persisted_value_read_back (h : Counter.Hook) (ls : LocalStorage.Hook Z)
    (st st' : Storage) :
  (enablePersistence (Counter.config h) = true ->
   setItem st counter_key (stringify (value (Counter.state h))) = Returns st' ->
   snd (persist h ls st) = st'
   /\ Adapter.getItem st' counter_key = Some (value (Counter.state h)))
  /\ (enablePersistence (Counter.config h) = false -> persist h ls st = (ls, st)).
Proof.
  unfold persist. split.
  - intros -> Hs.
    destruct (StoreSpec.accepted_write_read_back counter_key (value (Counter.state h))
                ls st st' Hs) as (Hv & Hg).
    rewrite Hv. split; [reflexivity | exact Hg].
  - intros ->. reflexivity.
Qed.

End PersistenceSpec.

(** * Properties of the theme resolver *)

Module ThemeSpec.
Import Types Web JsonInstances Theme.

Lemma currentTheme_cases (h : Hook) :
  currentTheme h =
    match storedPreference h with
    | SYSTEM => systemTheme h
    | mode => mode
    end.
Proof.
  unfold currentTheme, storedPreference.
  destruct (LocalStorage.storedValue (themeStorage h)); reflexivity.
Qed.

Lemma setValue_storedValue (mode : ThemeMode) (ts : LocalStorage.Hook ThemeMode)
    (st : Storage) :
  LocalStorage.storedValue (fst (LocalStorage.setValue theme_key (inl mode) ts st)) = mode.
Proof. unfold LocalStorage.setValue. case_match; reflexivity. Qed.

Lemma toggleTheme_storedPreference (h : Hook) (st : Storage) :
  storedPreference (fst (toggleTheme h st)) =
    if decide (currentTheme h = DARK) then LIGHT else DARK.
Proof.
  unfold toggleTheme, storedPreference.
  pose proof (setValue_storedValue
                (if decide (currentTheme h = DARK) then LIGHT else DARK)
                (themeStorage h) st) as Hv.
  destruct (LocalStorage.setValue theme_key _ (themeStorage h) st) as [ts st'].
  exact Hv.
Qed.

(** C7: the effective mode is the stored preference when that is not
    System and the system signal when it is; two hooks that agree on the
    stored preference and on the system signal have the same effective
    mode, whatever else they hold. *)
Theorem currentTheme_resolves (h : Hook) :
  (storedPreference h <> SYSTEM -> currentTheme h = storedPreference h)
  /\ (storedPreference h = SYSTEM -> currentTheme h = systemTheme h)
  /\ (forall h' : Hook,
        storedPreference h' = storedPreference h ->
        systemTheme h' = systemTheme h ->
        currentTheme h' = currentTheme h).
Proof.
  split; [|split].
  - intros Hne. rewrite currentTheme_cases.
    destruct (storedPreference h); [reflexivity | reflexivity | contradiction].
  - intros He. rewrite currentTheme_cases, He. reflexivity.
  - intros h' Hs Hy. rewrite !currentTheme_cases, Hs, Hy. reflexivity.
Qed.

Lemma currentTheme_resolves_witness :
  let h := fst (useTheme true (empty_storage 100)) in
  storedPreference h = SYSTEM /\ currentTheme h = DARK.
Proof.
  cbv zeta. split; [reflexivity|].
  rewrite (proj1 (proj2 (currentTheme_resolves (fst (useTheme true (empty_storage 100)))))
             eq_refl).
  reflexivity.
Defined.

(** With the preference System, a change event of the system theme changes
    the effective mode, with no call of [setTheme]. *)
Lemma system_change_followed (matches : bool) (h : Hook) :
  storedPreference h = SYSTEM ->
  currentTheme (handleChange matches h) = of_matches matches.
Proof.
  intros He. rewrite currentTheme_cases.
  unfold storedPreference in *. cbn [handleChange themeStorage systemTheme].
  rewrite He. reflexivity.
Qed.

(** C8: [toggleTheme] sets the stored preference to Light when the
    effective mode is Dark and to Dark when it is Light, the effective mode
    following; it never sets the stored preference to System.  A write the
    storage accepts stores the serialized new preference under the theme
    key. *)
Theorem toggleTheme_flips (h : Hook) (st : Storage) :
  (currentTheme h = DARK ->
     storedPreference (fst (toggleTheme h st)) = LIGHT
     /\ currentTheme (fst (toggleTheme h st)) = LIGHT)
  /\ (currentTheme h = LIGHT ->
       storedPreference (fst (toggleTheme h st)) = DARK
       /\ currentTheme (fst (toggleTheme h st)) = DARK)
  /\ storedPreference (fst (toggleTheme h st)) <> SYSTEM
  /\ (forall st' : Storage,
        setItem st theme_key (stringify (storedPreference (fst (toggleTheme h st))))
          = Returns st' ->
        snd (toggleTheme h st) = st'
        /\ items st' !! theme_key
           = Some (stringify (storedPreference (fst (toggleTheme h st))))).
Proof.
  pose proof (toggleTheme_storedPreference h st) as Hp.
  split; [|split; [|split]].
  - intros Hd. rewrite Hd in Hp. cbn in Hp.
    split; [exact Hp | rewrite currentTheme_cases, Hp; reflexivity].
  - intros Hl. rewrite Hl in Hp. cbn in Hp.
    split; [exact Hp | rewrite currentTheme_cases, Hp; reflexivity].
  - rewrite Hp. case_decide; discriminate.
  - intros st' Hs. rewrite Hp in *. split.
    + unfold toggleTheme, LocalStorage.setValue. rewrite Hs. reflexivity.
    + apply StoreSpec.setItem_returns in Hs as [_ ->]. apply lookup_insert_eq.
Qed.

Lemma toggleTheme_flips_witness :
  let h := fst (useTheme true (empty_storage 100)) in
  currentTheme h = DARK
  /\ storedPreference (fst (toggleTheme h (empty_storage 100))) = LIGHT
  /\ currentTheme (fst (toggleTheme h (empty_storage 100))) = LIGHT.
Proof.
  cbv zeta. split; [reflexivity|].
  apply (proj1 (toggleTheme_flips (fst (useTheme true (empty_storage 100)))
                  (empty_storage 100))).
  reflexivity.
Defined.

End ThemeSpec.

(** * Further properties of the counter hook *)

Module CounterTrail.
Import Ambient Types Counter Sessions.

Lemma chained_snoc (start stop : Z) (h : list CounterHistoryEntry) (e : CounterHistoryEntry) :
  chained start h stop -> previousValue e = stop -> chained start (h ++ [e]) (newValue e).
Proof.
  revert start. induction h as [|x h IH]; intros start Hc Hp; cbn in *.
  - subst. split; reflexivity.
  - destruct Hc as [Hx Hc]. split; [exact Hx | apply IH; assumption].
Qed.

(** A dispatch of a recognized action, spelled out on the hook. *)
Lemma dispatch_recognized (h : Hook) (a : CounterAction) :
  recognized (type a) = true ->
  dispatch h a =
    {| config := config h;
       state := with_value_and_entry (state h) (target (state h) a)
                  (entry_of (type a) (value (state h)) (target (state h) a) (world h));
       world := world_after_entry (world h) |}.
Proof.
  intros Hr. unfold dispatch.
  rewrite (CounterSpec.counterReducer_recognized _ _ _ Hr). reflexivity.
Qed.

(** Every call either leaves the hook as it is or dispatches a recognized
    action. *)
Lemma run_op_cases (h : Hook) (o : Op) :
  run_op h o = h
  \/ exists a, recognized (type a) = true /\ run_op h o = dispatch h a.
Proof.
  destruct o; cbn [run_op]; unfold increment, decrement, reset, setValue;
    repeat case_match; try (left; reflexivity);
    right; eexists; (split; [|reflexivity]); reflexivity.
Qed.

Lemma run_ops_snoc (h : Hook) (ops : list Op) (o : Op) :
  run_ops h (ops ++ [o]) = run_op (run_ops h ops) o.
Proof. unfold run_ops. rewrite fold_left_app. reflexivity. Qed.

(** X1: the history the hook accumulates is an unbroken trail from the
    initial value to the current value: the first entry starts at
    [initialValue], every entry starts at the [newValue] of the one before
    it, and the last entry ends at the current count. *)
Theorem history_is_a_trail (initialConfig : PartialCounterConfig) (w : World)
    (ops : list Op) :
  let h0 := useCounter initialConfig w in
  let h := run_ops h0 ops in
  chained (initialValue (config h0)) (history (state h)) (value (state h)).
Proof.
  cbv zeta. induction ops as [|o ops IH] using rev_ind.
  - reflexivity.
  - rewrite run_ops_snoc.
    destruct (run_op_cases (run_ops (useCounter initialConfig w) ops) o)
      as [-> | (a & Hr & ->)]; [exact IH|].
    rewrite (dispatch_recognized _ a Hr). cbn [state with_value_and_entry history value].
    set (h := run_ops (useCounter initialConfig w) ops) in *.
    exact (chained_snoc _ _ _
             (entry_of (type a) (value (state h)) (target (state h) a) (world h))
             IH eq_refl).
Qed.

Lemma stamped_run_ops (initialConfig : PartialCounterConfig) (w : World) (ops : list Op) :
  stamped w (run_ops (useCounter initialConfig w) ops).
Proof.
  induction ops as [|o ops IH] using rev_ind.
  - unfold stamped. cbn. repeat split; try lia; destruct k; discriminate.
  - rewrite run_ops_snoc.
    destruct (run_op_cases (run_ops (useCounter initialConfig w) ops) o)
      as [-> | (a & Hr & ->)]; [exact IH|].
    rewrite (dispatch_recognized _ a Hr).
    destruct IH as (Hu & Hc & Hn & Hm & Hk).
    set (h := run_ops (useCounter initialConfig w) ops) in *.
    unfold stamped. cbn [world state with_value_and_entry history].
    rewrite length_app. cbn [length].
    split; [exact Hu|]. split; [exact Hc|].
    split; [cbn; lia|]. split; [cbn; lia|].
    intros k e Hke.
    destruct (decide (k < length (history (state h)))%nat) as [Hlt|Hge].
    + rewrite lookup_app_l in Hke by exact Hlt. apply Hk. exact Hke.
    + rewrite lookup_app_r in Hke by lia.
      destruct (k - length (history (state h)))%nat eqn:Hd; [|destruct n; discriminate].
      injection Hke as <-.
      assert (k = length (history (state h))) as -> by lia.
      unfold entry_of, readings. cbn. rewrite Hu, Hc, Hn, Hm.
      split; [reflexivity|]. repeat f_equal; lia.
Qed.

(** X2: when the uuid generator never repeats a value, the entries of the
    hook's history have pairwise distinct ids. *)
Theorem history_ids_distinct (initialConfig : PartialCounterConfig) (w : World)
    (ops : list Op) :
  (forall i j : nat, uuid_source w i = uuid_source w j -> i = j) ->
  NoDup (map id (history (state (run_ops (useCounter initialConfig w) ops)))).
Proof.
  intros Hinj.
  destruct (stamped_run_ops initialConfig w ops) as (_ & _ & _ & _ & Hk).
  apply NoDup_alt. intros i j x Hi Hj.
  rewrite list_lookup_fmap in Hi, Hj.
  destruct (history (state (run_ops (useCounter initialConfig w) ops)) !! i) as [ei|] eqn:Ei;
    [|discriminate].
  destruct (history (state (run_ops (useCounter initialConfig w) ops)) !! j) as [ej|] eqn:Ej;
    [|discriminate].
  cbn in Hi, Hj. injection Hi as Hi. injection Hj as Hj.
  destruct (Hk i ei Ei) as [Hii _]. destruct (Hk j ej Ej) as [Hjj _].
  assert (uuid_calls w + i = uuid_calls w + j)%nat by (apply Hinj; congruence).
  lia.
Qed.

Lemma counting_world_never_repeats (i j : nat) :
  uuid_source counting_world i = uuid_source counting_world j -> i = j.
Proof.
  cbn. intros He.
  pose proof (Web.parse_stringify (T := Z) (Z.of_nat i)) as Hi.
  pose proof (Web.parse_stringify (T := Z) (Z.of_nat j)) as Hj.
  cbn in Hi, Hj. rewrite He in Hi. rewrite Hi in Hj. injection Hj as Hj. lia.
Qed.

Lemma history_ids_distinct_witness :
  (forall i j : nat, uuid_source counting_world i = uuid_source counting_world j -> i = j)
  /\ NoDup (map id (history (state (run_ops (useCounter noConfig counting_world)
                                       [OpIncrement; OpIncrement; OpReset])))).
Proof.
  split; [exact counting_world_never_repeats|].
  exact (history_ids_distinct noConfig counting_world
           [OpIncrement; OpIncrement; OpReset] counting_world_never_repeats).
Defined.



(** X4: the boundary flags decide what the callbacks do.  With [isAtMax]
    set, [increment] changes nothing; otherwise it appends exactly one
    Increment entry from the current value to the next one.  Likewise for
    [isAtMin] and [decrement], whose entry ends at [max 0 (value - 1)]. *)
Theorem flags_gate_the_callbacks (h : Hook) :
  (isAtMax h = true -> increment h = h)
  /\ (isAtMax h = false ->
       exists e, history (state (increment h)) = history (state h) ++ [e]
                 /\ action e = INCREMENT
                 /\ previousValue e = value (state h)
                 /\ newValue e = value (state h) + 1
                 /\ value (state (increment h)) = value (state h) + 1)
  /\ (isAtMin h = true -> decrement h = h)
  /\ (isAtMin h = false ->
       exists e, history (state (decrement h)) = history (state h) ++ [e]
                 /\ action e = DECREMENT
                 /\ previousValue e = value (state h)
                 /\ newValue e = Z.max 0 (value (state h) - 1)
                 /\ value (state (decrement h)) = Z.max 0 (value (state h) - 1)).
Proof.
  unfold isAtMax, isAtMin, increment, decrement.
  rewrite Z.geb_leb, Z.gtb_ltb.
  repeat split.
  - intros Hge. apply Z.leb_le in Hge.
    destruct (Z.ltb_spec (value (state h)) (maxValue (config h))); [lia | reflexivity].
  - intros Hlt. apply Z.leb_gt in Hlt.
    destruct (Z.ltb_spec (value (state h)) (maxValue (config h))); [|lia].
    change (dispatch h _) with (dispatch h (act INCREMENT)).
    rewrite (dispatch_recognized h (act INCREMENT) eq_refl). eexists. repeat split.
  - intros Hle. apply Z.leb_le in Hle.
    destruct (Z.ltb_spec (minValue (config h)) (value (state h))); [lia | reflexivity].
  - intros Hgt. apply Z.leb_gt in Hgt.
    destruct (Z.ltb_spec (minValue (config h)) (value (state h))); [|lia].
    change (dispatch h _) with (dispatch h (act DECREMENT)).
    rewrite (dispatch_recognized h (act DECREMENT) eq_refl). eexists. repeat split.
Qed.

Lemma flags_gate_the_callbacks_witness :
  let h := useCounter noConfig world0 in
  isAtMin h = true /\ decrement h = h.
Proof.
  cbv zeta. split; [reflexivity|].
  apply (proj1 (proj2 (proj2 (flags_gate_the_callbacks (useCounter noConfig world0))))).
  reflexivity.
Defined.

(** X5: [setValue] brings the value within the bounds from any state, when
    [minValue <= maxValue]: the result is the argument clamped, and the
    argument itself when it lies within the bounds.  When
    [maxValue < minValue], [setValue] yields [minValue] whatever the
    argument. *)
Theorem setValue_clamps (v : Z) (h : Hook) :
  (minValue (config h) <= maxValue (config h) ->
     in_bounds (setValue v h)
     /\ (minValue (config h) <= v <= maxValue (config h) ->
          value (state (setValue v h)) = v))
  /\ (maxValue (config h) < minValue (config h) ->
       value (state (setValue v h)) = minValue (config h)).
Proof.
  unfold in_bounds.
  pose proof (CounterSpec.run_op_config h (OpSetValue v)) as Hc. cbn [run_op] in Hc.
  rewrite Hc, CounterSpec.setValue_value. repeat split; lia.
Qed.

Lemma setValue_clamps_witness :
  let h := useCounter (bounds 20 0 10) world0 in
  minValue (config h) <= maxValue (config h)
  /\ ~ in_bounds h
  /\ in_bounds (setValue 99 h)
  /\ value (state (setValue 7 h)) = 7.
Proof.
  cbv zeta.
  assert (Hle : minValue (config (useCounter (bounds 20 0 10) world0))
                <= maxValue (config (useCounter (bounds 20 0 10) world0)))
    by (vm_compute; discriminate).
  split; [exact Hle|]. split.
  - unfold in_bounds. vm_compute. intros [_ Hhi]. apply Hhi. reflexivity.
  - split.
    + exact (proj1 (proj1 (setValue_clamps 99 (useCounter (bounds 20 0 10) world0)) Hle)).
    + apply (proj2 (proj1 (setValue_clamps 7 (useCounter (bounds 20 0 10) world0)) Hle)).
      vm_compute. split; discriminate.
Defined.

(** A hook within bounds that contain 0 stays within them; the converse
    is [CounterSpec.necessary_conditions_for_bounds]. *)
Lemma necessary_conditions_for_bounds_witness :
  (forall ops, Forall in_bounds (trace (useCounter noConfig world0) ops))
  /\ zero_in_bounds (config (useCounter noConfig world0))
  /\ in_bounds (useCounter noConfig world0).
Proof.
  assert (Hall : forall ops, Forall in_bounds (trace (useCounter noConfig world0) ops)).
  { intros ops. apply CounterSpec.trace_in_bounds.
    - unfold zero_in_bounds. vm_compute. split; discriminate.
    - unfold in_bounds. vm_compute. split; discriminate. }
  split; [exact Hall|].
  exact (CounterSpec.necessary_conditions_for_bounds (useCounter noConfig world0) Hall).
Defined.


End CounterTrail.

(** * Further properties of the persisted store *)

Module StoreExtras.
Import Types Web JsonInstances.

Section Generic.
Context {T : Type} `{Json T}.

Lemma useLocalStorage_reads_getItem (key : string) (d : T) (st st' : Storage) :
  getItem st' key = getItem st key ->
  fst (LocalStorage.useLocalStorage key d st') = fst (LocalStorage.useLocalStorage key d st).
Proof.
  intros Hg. unfold LocalStorage.useLocalStorage, LocalStorage.initialize.
  rewrite Hg. repeat case_match; reflexivity.
Qed.

(** X7: a write under one key, accepted or refused, does not change what a
    hook mounted on another key reads, whatever the types stored under the
    two keys. *)
Theorem keys_are_isolated {U : Type} `{Json U} (key key' : string) (v : U) (d : T)
    (h : LocalStorage.Hook U) (st : Storage) :
  key <> key' ->
  fst (LocalStorage.useLocalStorage key' d (snd (LocalStorage.setValue key (inl v) h st)))
  = fst (LocalStorage.useLocalStorage key' d st).
Proof.
  intros Hne. apply useLocalStorage_reads_getItem.
  unfold LocalStorage.setValue.
  destruct (setItem st key (stringify v)) as [st'|err] eqn:Hs; cbn [snd]; [|reflexivity].
  exact (StoreSpec.getItem_after_setItem_other st st' key key' _ Hne Hs).
Qed.

(** After mounting, the hook is never loading, and it reports an error
    exactly when the storage could not be read or the entry, present and not
    empty, did not parse. *)
Theorem mount_reports_read_failures (key : string) (d : T) (st : Storage) :
  LocalStorage.isLoading (fst (LocalStorage.useLocalStorage key d st)) = false
  /\ (LocalStorage.error (fst (LocalStorage.useLocalStorage key d st)) <> None
      <-> accessible st = false
          \/ exists text, items st !! key = Some text
                          /\ text <> EmptyString /\ parse (T := T) text = None).
Proof.
  unfold LocalStorage.useLocalStorage, LocalStorage.initialize, getItem.
  destruct (accessible st) eqn:Ha.
  - destruct (items st !! key) as [text|] eqn:Hk; cbn [truthy].
    + destruct text as [|c text].
      * cbn. split; [reflexivity|]. split; [intros Hn; contradiction|].
        intros [Hf | (tx & Htx & Hne & _)]; [discriminate|]. congruence.
      * destruct (parse (String c text)) eqn:Hp; cbn.
        -- split; [reflexivity|]. split; [intros Hn; contradiction|].
           intros [Hf | (tx & Htx & _ & Hpn)]; [discriminate|]. congruence.
        -- split; [reflexivity|]. split; [|discriminate].
           intros _. right. exists (String c text). repeat split; [discriminate | exact Hp].
    + cbn. split; [reflexivity|]. split; [intros Hn; contradiction|].
      intros [Hf | (tx & Htx & _)]; discriminate.
  - cbn. split; [reflexivity|]. split; [intros _; left; reflexivity | discriminate].
Qed.

(** X8: through the adapter, an entry that was removed reads as [null]
    while every other key reads as before, and after [clear] every key reads
    as [null]; both on a storage the page may access. *)
Theorem adapter_remove_and_clear (key key' : string) (st : Storage) :
  accessible st = true ->
  Adapter.getItem (T := T) (fst (Adapter.removeItem st key)) key = None
  /\ (key <> key' ->
      Adapter.getItem (T := T) (fst (Adapter.removeItem st key)) key'
      = Adapter.getItem st key')
  /\ Adapter.getItem (T := T) (fst (Adapter.clear st)) key' = None.
Proof.
  intros Ha.
  unfold Adapter.removeItem, Adapter.clear, removeItem, clear, Adapter.getItem, getItem.
  rewrite Ha. cbn [fst accessible items].
  split; [|split].
  - rewrite lookup_delete_eq. reflexivity.
  - intros Hne. rewrite lookup_delete_ne by exact Hne. reflexivity.
  - rewrite lookup_empty. reflexivity.
Qed.

End Generic.

Lemma keys_are_isolated_witness :
  let st := storage_with "theme-mode" (stringify DARK) 100 in
  "counter-value"%string <> "theme-mode"%string
  /\ LocalStorage.storedValue
       (fst (LocalStorage.useLocalStorage "theme-mode" SYSTEM
               (snd (LocalStorage.setValue "counter-value" (inl 5)
                       (LocalStorage.first_render 0) st))))
     = DARK.
Proof.
  cbv zeta. split; [discriminate|].
  rewrite (keys_are_isolated "counter-value" "theme-mode" 5 SYSTEM
             (LocalStorage.first_render 0)
             (storage_with "theme-mode" (stringify DARK) 100)).
  - reflexivity.
  - discriminate.
Defined.

Lemma mount_reports_read_failures_witness :
  let st := storage_with "counter-value" "4x2" 100 in
  (exists text, items st !! "counter-value"%string = Some text
                /\ text <> EmptyString /\ parse (T := Z) text = None)
  /\ LocalStorage.error (fst (LocalStorage.useLocalStorage "counter-value" 0 st)) <> None.
Proof.
  cbv zeta.
  assert (Hbad : exists text,
             items (storage_with "counter-value" "4x2" 100) !! "counter-value"%string
               = Some text
             /\ text <> EmptyString /\ parse (T := Z) text = None).
  { exists "4x2"%string. split; [reflexivity|]. split; [discriminate | reflexivity]. }
  split; [exact Hbad|].
  apply (proj2 (mount_reports_read_failures "counter-value" 0
                  (storage_with "counter-value" "4x2" 100))).
  right. exact Hbad.
Defined.

Lemma adapter_remove_and_clear_witness :
  let st := storage_with "counter-value" "42" 100 in
  accessible st = true
  /\ Adapter.getItem (T := Z) st "counter-value" = Some 42
  /\ Adapter.getItem (T := Z) (fst (Adapter.removeItem st "counter-value")) "counter-value"
     = None.
Proof.
  cbv zeta. split; [reflexivity|]. split; [reflexivity|].
  exact (proj1 (adapter_remove_and_clear (T := Z) "counter-value" "theme-mode"
                  (storage_with "counter-value" "42" 100) eq_refl)).
Defined.

(** X9 is [StoreSpec.refused_write_advances_hook]; here it is at a concrete input. *)
Lemma refused_write_advances_hook_witness :
  setItem Sessions.full_storage "counter-value" (stringify 42) = Throws "QuotaExceededError"
  /\ LocalStorage.storedValue
       (fst (LocalStorage.setValue "counter-value" (inl 42)
               (LocalStorage.first_render 0) Sessions.full_storage)) = 42
  /\ snd (LocalStorage.setValue "counter-value" (inl 42)
            (LocalStorage.first_render 0) Sessions.full_storage) = Sessions.full_storage.
Proof.
  assert (Hs : setItem Sessions.full_storage "counter-value" (stringify 42)
               = Throws "QuotaExceededError") by reflexivity.
  split; [exact Hs|].
  destruct (StoreSpec.refused_write_advances_hook "counter-value" 42
              (LocalStorage.first_render 0) Sessions.full_storage _ Hs) as (Hv & _ & Hst).
  split; [exact Hv | exact Hst].
Defined.

(** X10 is [StoreSpec.removed_gives_default]; here it is at a concrete input. *)
Lemma removed_gives_default_witness :
  let st := storage_with "counter-value" "42" 100 in
  accessible st = true
  /\ LocalStorage.storedValue (fst (LocalStorage.useLocalStorage "counter-value" 7 st)) = 42
  /\ LocalStorage.storedValue
       (fst (LocalStorage.useLocalStorage "counter-value" 7
               (snd (LocalStorage.removeValue "counter-value" 0
                       (LocalStorage.first_render 0) st)))) = 7.
Proof.
  cbv zeta. split; [reflexivity|]. split; [reflexivity|].
  exact (proj2 (StoreSpec.removed_gives_default "counter-value" 0 7
                  (LocalStorage.first_render 0)
                  (storage_with "counter-value" "42" 100) eq_refl)).
Defined.

Lemma persisted_value_read_back_witness :
  let h := Counter.increment (Counter.useCounter
             {| initialValue_opt := Some 41; minValue_opt := None; maxValue_opt := None;
                step_opt := None; enableHistory_opt := None;
                enablePersistence_opt := Some true |} Ambient.world0) in
  enablePersistence (Counter.config h) = true
  /\ Adapter.getItem
       (snd (Persistence.persist h (LocalStorage.first_render 41) (empty_storage 100)))
       Persistence.counter_key = Some 42.
Proof.
  cbv zeta. split; [reflexivity|].
  destruct (proj1 (PersistenceSpec.persisted_value_read_back
                     (Counter.increment (Counter.useCounter
                        {| initialValue_opt := Some 41; minValue_opt := None;
                           maxValue_opt := None; step_opt := None;
                           enableHistory_opt := None;
                           enablePersistence_opt := Some true |} Ambient.world0))
                     (LocalStorage.first_render 41) (empty_storage 100)
                     (storage_with "counter-value" "42" 100))
              eq_refl eq_refl) as [Hst Hg].
  rewrite Hst. exact Hg.
Defined.

End StoreExtras.

(** * Further properties of the theme resolver *)

Module ThemeExtras.
Import Types Web JsonInstances Theme Sessions.

(** X11: a change of the system theme changes the effective mode exactly
    when the stored preference is System; it never changes the stored
    preference. *)
Theorem system_signal_effect (matches : bool) (h : Hook) :
  (storedPreference h = SYSTEM -> currentTheme (handleChange matches h) = of_matches matches)
  /\ (storedPreference h <> SYSTEM -> currentTheme (handleChange matches h) = currentTheme h)
  /\ storedPreference (handleChange matches h) = storedPreference h.
Proof.
  rewrite !ThemeSpec.currentTheme_cases.
  unfold storedPreference. cbn [handleChange themeStorage systemTheme].
  destruct (LocalStorage.storedValue (themeStorage h)); repeat split;
    intros; congruence.
Qed.

Lemma system_signal_effect_witness :
  let h := fst (useTheme true (empty_storage 100)) in
  storedPreference h = SYSTEM
  /\ currentTheme h = DARK
  /\ currentTheme (handleChange false h) = LIGHT.
Proof.
  cbv zeta. split; [reflexivity|]. split; [reflexivity|].
  exact (proj1 (system_signal_effect false (fst (useTheme true (empty_storage 100))))
           eq_refl).
Defined.

Lemma setTheme_storedPreference (mode : ThemeMode) (h : Hook) (st : Storage) :
  storedPreference (fst (setTheme mode h st)) = mode
  /\ systemTheme (fst (setTheme mode h st)) = systemTheme h.
Proof.
  unfold setTheme, storedPreference, LocalStorage.setValue.
  destruct (setItem st theme_key (stringify mode)); split; reflexivity.
Qed.

Lemma toggleTheme_systemTheme (h : Hook) (st : Storage) :
  systemTheme (fst (toggleTheme h st)) = systemTheme h.
Proof.
  unfold toggleTheme, LocalStorage.setValue.
  destruct (setItem st theme_key _); reflexivity.
Qed.

Lemma useTheme_reads_written (mode : ThemeMode) (matches : bool) (st st' : Storage) :
  setItem st theme_key (stringify mode) = Returns st' ->
  storedPreference (fst (useTheme matches st')) = mode.
Proof.
  intros Hs. pose proof (StoreSpec.getItem_after_setItem _ _ _ _ Hs) as Hg.
  unfold useTheme, storedPreference, LocalStorage.useLocalStorage, LocalStorage.initialize.
  rewrite Hg, StoreSpec.truthy_stringify, parse_stringify. reflexivity.
Qed.

(** X12: a preference that [setTheme] or [toggleTheme] wrote to a storage
    that accepted it is the stored preference of a hook mounted later on
    that storage, whatever the system theme is then. *)
Theorem preference_survives_remount (mode : ThemeMode) (matches : bool)
    (h : Hook) (st : Storage) :
  (forall st', setItem st theme_key (stringify mode) = Returns st' ->
     storedPreference (fst (useTheme matches (snd (setTheme mode h st)))) = mode)
  /\ (forall st',
        setItem st theme_key (stringify (storedPreference (fst (toggleTheme h st))))
          = Returns st' ->
        storedPreference (fst (useTheme matches (snd (toggleTheme h st))))
        = storedPreference (fst (toggleTheme h st))).
Proof.
  split.
  - intros st' Hs.
    assert (snd (setTheme mode h st) = st') as ->
      by (unfold setTheme, LocalStorage.setValue; rewrite Hs; reflexivity).
    exact (useTheme_reads_written mode matches st st' Hs).
  - intros st' Hs.
    rewrite ThemeSpec.toggleTheme_storedPreference in *.
    assert (snd (toggleTheme h st) = st') as ->
      by (unfold toggleTheme, LocalStorage.setValue; rewrite Hs; reflexivity).
    exact (useTheme_reads_written _ matches st st' Hs).
Qed.

Lemma preference_survives_remount_witness :
  let h := fst (useTheme true (empty_storage 100)) in
  setItem (empty_storage 100) theme_key (stringify LIGHT)
    = Returns (storage_with theme_key (stringify LIGHT) 100)
  /\ storedPreference
       (fst (useTheme true (snd (setTheme LIGHT h (empty_storage 100))))) = LIGHT.
Proof.
  cbv zeta. split; [reflexivity|].
  exact (proj1 (preference_survives_remount LIGHT true
                  (fst (useTheme true (empty_storage 100))) (empty_storage 100))
           (storage_with theme_key (stringify LIGHT) 100) eq_refl).
Defined.



Lemma theme_step_systemTheme (hs : Hook * Storage) (o : ThemeOp) :
  systemTheme (fst hs) <> SYSTEM -> systemTheme (fst (theme_step hs o)) <> SYSTEM.
Proof.
  intros Hne. destruct o as [|mode|matches]; cbn [theme_step].
  - rewrite toggleTheme_systemTheme. exact Hne.
  - rewrite (proj2 (setTheme_storedPreference mode (fst hs) (snd hs))). exact Hne.
  - cbn. destruct matches; discriminate.
Qed.

(** X14: on a hook mounted on a storage whose theme entry is absent or was
    written by the hook, after any sequence of toggles, [setTheme] calls and
    system theme changes, the effective mode is Light or Dark, and exactly
    one of [isDark] and [isLight] holds. *)
Theorem dark_or_light (matches : bool) (st : Storage) (ops : list ThemeOp) :
  written_by_app st ->
  let h := fst (theme_session (useTheme matches st) ops) in
  currentTheme h <> SYSTEM /\ isDark h = negb (isLight h).
Proof.
  intros _. cbv zeta.
  assert (Hs : systemTheme (fst (theme_session (useTheme matches st) ops)) <> SYSTEM).
  { unfold theme_session.
    assert (H0 : systemTheme (fst (useTheme matches st)) <> SYSTEM).
    { unfold useTheme. destruct (LocalStorage.useLocalStorage theme_key SYSTEM st).
      cbn. destruct matches; discriminate. }
    revert H0. generalize (useTheme matches st).
    induction ops as [|o ops IH]; intros hs H0; cbn [fold_left]; [exact H0|].
    apply IH. apply theme_step_systemTheme. exact H0. }
  set (h := fst (theme_session (useTheme matches st) ops)) in *.
  assert (Hc : currentTheme h <> SYSTEM).
  { rewrite ThemeSpec.currentTheme_cases.
    destruct (storedPreference h); try discriminate. exact Hs. }
  split; [exact Hc|].
  unfold isDark, isLight. destruct (currentTheme h); [reflexivity | reflexivity | contradiction].
Qed.

Lemma dark_or_light_witness :
  written_by_app (empty_storage 100)
  /\ isDark (fst (theme_session (useTheme false (empty_storage 100))
                    [Toggle; SystemChange true; SetTheme SYSTEM])) = true.
Proof.
  assert (Hw : written_by_app (empty_storage 100)) by (left; reflexivity).
  split; [exact Hw|].
  rewrite (proj2 (dark_or_light false (empty_storage 100)
                    [Toggle; SystemChange true; SetTheme SYSTEM] Hw)).
  reflexivity.
Defined.

End ThemeExtras.

(** * Properties of the utilities *)

Module ValidationSpec.
Import Validation.

Section Collect.
Context {T : Type}.

Lemma collect_concat (vs : list (Validator T)) (value : T) :
  collect vs value = concat (map (report value) vs).
Proof.
  unfold collect.
  assert (Hg : forall acc,
             fold_left
               (fun collected validator =>
                  let result := validator value in
                  if isValid result then collected else collected ++ errors result)
               vs acc
             = acc ++ concat (map (report value) vs)).
  { induction vs as [|v vs IH]; intros acc; cbn.
    - rewrite app_nil_r. reflexivity.
    - rewrite IH. unfold report. destruct (isValid (v value)); cbn.
      + reflexivity.
      + rewrite app_assoc. reflexivity. }
  exact (Hg []).
Qed.

Lemma length_zero_iff (l : list string) : (length l =? 0)%nat = true <-> l = [].
Proof. destruct l; cbn; split; intros; congruence. Qed.

(** X15: [combineValidators] over validators made by [createValidator]
    reports the messages of exactly the rules the value fails, in the order
    of the rules, and accepts the value exactly when it passes every rule;
    [useValidation] derives the same result from its value. *)
Theorem combined_rules (rules : list ((T -> bool) * string)) (value : T) :
  let vs := map (fun r => createValidator (fst r) (snd r)) rules in
  errors (combineValidators vs value)
    = map snd (filter (fun r => fst r value = false) rules)
  /\ (isValid (combineValidators vs value) = true
      <-> forall r, r ∈ rules -> fst r value = true)
  /\ forall initial : T,
       validation (setValue value (useValidation initial vs)) = combineValidators vs value.
Proof.
  cbv zeta.
  assert (He : concat (map (report value)
                         (map (fun r => createValidator (fst r) (snd r)) rules))
               = map snd (filter (fun r => fst r value = false) rules)).
  { induction rules as [|[p m] rules IH]; [reflexivity|].
    cbn [map concat]. rewrite IH, filter_cons. unfold report, createValidator.
    cbn [isValid errors fst snd].
    destruct (p value) eqn:Hp; case_decide; try congruence; reflexivity. }
  split; [|split; [|intros initial; reflexivity]].
  - unfold combineValidators. cbn [errors]. rewrite collect_concat. exact He.
  - unfold combineValidators. cbn [isValid]. rewrite collect_concat, He.
    rewrite length_zero_iff. split.
    + intros Hnil [p m] Hin. cbn.
      destruct (p value) eqn:Hp; [reflexivity|].
      assert (Hm : (p, m) ∈ filter (fun r => fst r value = false) rules)
        by (apply list_elem_of_filter; split; [exact Hp | exact Hin]).
      apply map_eq_nil in Hnil. rewrite Hnil in Hm. inversion Hm.
    + intros Hall.
      destruct (filter (fun r => fst r value = false) rules) as [|r l] eqn:Hf; [reflexivity|].
      assert (Hr : r ∈ filter (fun r => fst r value = false) rules)
        by (rewrite Hf; left).
      apply list_elem_of_filter in Hr as [Hfalse Hin].
      rewrite (Hall r Hin) in Hfalse. discriminate.
Qed.

Lemma report_combined (vs : list (Validator T)) (value : T) :
  report value (combineValidators vs) = collect vs value.
Proof.
  unfold report, combineValidators. cbn [isValid errors].
  destruct (collect vs value); reflexivity.
Qed.

Lemma collect_app (vs1 vs2 : list (Validator T)) (value : T) :
  collect (vs1 ++ vs2) value = collect vs1 value ++ collect vs2 value.
Proof. rewrite !collect_concat, map_app, concat_app. reflexivity. Qed.

(** X16: combining combined validators is combining all of them at once;
    a validator that reports a value invalid without any message does not
    make the combination invalid. *)
Theorem combine_flattens (vs1 vs2 : list (Validator T)) (value : T) :
  combineValidators [combineValidators vs1; combineValidators vs2] value
  = combineValidators (vs1 ++ vs2) value
  /\ forall silent : Validator T,
       silent value = {| isValid := false; errors := [] |} ->
       combineValidators (silent :: vs1) value = combineValidators vs1 value.
Proof.
  split.
  - assert (Hc : collect [combineValidators vs1; combineValidators vs2] value
                 = collect (vs1 ++ vs2) value).
    { rewrite collect_app, (collect_concat [_; _]). cbn [map concat].
      rewrite !report_combined, app_nil_r. reflexivity. }
    unfold combineValidators at 1 4. rewrite Hc. reflexivity.
  - intros silent Hs.
    assert (Hc : collect (silent :: vs1) value = collect vs1 value).
    { rewrite (collect_concat (_ :: _)). cbn [map concat].
      unfold report at 1. rewrite Hs. cbn. symmetry. apply collect_concat. }
    unfold combineValidators. rewrite Hc. reflexivity.
Qed.

End Collect.

Lemma combine_flattens_witness :
  let silent : Validator Z := fun _ => {| isValid := false; errors := [] |} in
  silent 5 = {| isValid := false; errors := [] |}
  /\ isValid (combineValidators [silent; isPositiveNumber] 5) = true.
Proof.
  cbv zeta. split; [reflexivity|].
  rewrite (proj2 (combine_flattens [isPositiveNumber] [] 5)
             (fun _ => {| isValid := false; errors := [] |}) eq_refl).
  reflexivity.
Defined.

Lemma combined_rules_witness :
  errors (combineValidators [isNonNegativeNumber; isInRange 1 10; isPositiveNumber] 0)
  = ["Value must be between 1 and 10"; "Value must be positive"]%string.
Proof.
  exact (proj1 (combined_rules
                  [((fun value => value >=? 0)%Z, "Value must be non-negative"%string);
                   ((fun value => (value >=? 1) && (value <=? 10))%Z,
                    "Value must be between 1 and 10"%string);
                   ((fun value => value >? 0)%Z, "Value must be positive"%string)] 0)).
Defined.

End ValidationSpec.

Module ArraysSpec.
Import Arrays.

Section Unique.
Context {T : Type} `{EqDecision T}.

Lemma fold_set_add_elem (l acc : list T) (x : T) :
  x ∈ fold_left set_add l acc <-> x ∈ acc \/ x ∈ l.
Proof.
  revert acc. induction l as [|y l IH]; intros acc; cbn [fold_left].
  - rewrite elem_of_nil. tauto.
  - rewrite IH, elem_of_cons. unfold set_add. case_decide.
    + split; [intros [?|?]; tauto | intros [?|[->|?]]; tauto].
    + rewrite elem_of_app, list_elem_of_singleton. tauto.
Qed.

Lemma fold_set_add_NoDup (l acc : list T) :
  NoDup acc -> NoDup (fold_left set_add l acc).
Proof.
  revert acc. induction l as [|y l IH]; intros acc Hn; cbn [fold_left]; [exact Hn|].
  apply IH. unfold set_add. case_decide; [exact Hn|].
  apply NoDup_app. split; [exact Hn|]. split.
  - intros x Hx Hy. apply list_elem_of_singleton in Hy as ->. contradiction.
  - apply NoDup_singleton.
Qed.

Lemma fold_set_add_fresh (l acc : list T) :
  NoDup (acc ++ l) -> fold_left set_add l acc = acc ++ l.
Proof.
  revert acc. induction l as [|y l IH]; intros acc Hn; cbn [fold_left].
  - rewrite app_nil_r. reflexivity.
  - assert (Hy : y ∉ acc).
    { apply NoDup_app in Hn as (_ & Hd & _). intros Hin. apply (Hd y Hin). left. }
    unfold set_add. case_decide; [contradiction|].
    rewrite IH; rewrite <- app_assoc; [reflexivity | exact Hn].
Qed.

Lemma filter_set_add (x y : T) (acc : list T) :
  filter (fun z => z <> x) (set_add acc y)
  = if decide (y <> x) then set_add (filter (fun z => z <> x) acc) y
    else filter (fun z => z <> x) acc.
Proof.
  unfold set_add.
  destruct (decide (y ∈ acc)) as [Hin|Hin]; destruct (decide (y <> x)) as [Hne|He].
  - rewrite decide_True; [reflexivity|]. apply list_elem_of_filter. split; assumption.
  - reflexivity.
  - rewrite decide_False.
    + rewrite filter_app, filter_cons, decide_True by exact Hne. reflexivity.
    + intros Hf. apply list_elem_of_filter in Hf as [_ Hf]. contradiction.
  - rewrite filter_app, filter_cons, decide_False by exact He.
    rewrite filter_nil, app_nil_r. reflexivity.
Qed.

Lemma set_add_head (x y : T) (acc : list T) :
  set_add (x :: acc) y = if decide (y <> x) then x :: set_add acc y else x :: acc.
Proof.
  unfold set_add.
  destruct (decide (y <> x)) as [Hne|He].
  - destruct (decide (y ∈ acc)) as [Hin|Hin].
    + rewrite decide_True by (right; exact Hin). reflexivity.
    + rewrite decide_False; [reflexivity|].
      rewrite not_elem_of_cons. split; assumption.
  - apply dec_stable in He. subst y. rewrite decide_True by left. reflexivity.
Qed.

(** Filtering an element out commutes with building the set. *)
Lemma fold_set_add_filter (x : T) (l acc : list T) :
  filter (fun y => y <> x) (fold_left set_add l acc)
  = fold_left set_add (filter (fun y => y <> x) l) (filter (fun y => y <> x) acc).
Proof.
  revert acc. induction l as [|y l IH]; intros acc; cbn [fold_left]; [reflexivity|].
  rewrite IH, filter_set_add, filter_cons.
  destruct (decide (y <> x)); reflexivity.
Qed.

Lemma fold_set_add_head (x : T) (l acc : list T) :
  fold_left set_add l (x :: acc)
  = x :: fold_left set_add (filter (fun y => y <> x) l) acc.
Proof.
  revert acc. induction l as [|y l IH]; intros acc; cbn [fold_left]; [reflexivity|].
  rewrite set_add_head, filter_cons.
  destruct (decide (y <> x)); cbn [fold_left]; apply IH.
Qed.

(** X17: [unique] returns every element of the array exactly once. *)
Theorem unique_once (array : list T) :
  NoDup (unique array) /\ forall x, x ∈ unique array <-> x ∈ array.
Proof.
  unfold unique. split.
  - apply fold_set_add_NoDup. constructor.
  - intros x. rewrite fold_set_add_elem, elem_of_nil. tauto.
Qed.

(** X18: [unique] keeps the elements in the order of their first
    occurrence: the result for [x :: array] is [x] followed by the result for
    [array] without [x].  An array without duplicates is returned as it is,
    so [unique] applied twice is [unique]. *)
Theorem unique_first_occurrences (x : T) (array : list T) :
  unique (@nil T) = []
  /\ unique (x :: array) = x :: filter (fun y => y <> x) (unique array)
  /\ (NoDup array -> unique array = array)
  /\ unique (unique array) = unique array.
Proof.
  assert (Hfix : forall l : list T, NoDup l -> unique l = l)
    by (intros l Hn; exact (fold_set_add_fresh l [] Hn)).
  split; [reflexivity|]. split; [|split].
  - unfold unique. cbn [fold_left]. unfold set_add at 2.
    rewrite decide_False by apply not_elem_of_nil. cbn [app].
    rewrite fold_set_add_head, fold_set_add_filter. reflexivity.
  - apply Hfix.
  - apply Hfix. apply fold_set_add_NoDup. constructor.
Qed.

End Unique.

Lemma unique_first_occurrences_witness :
  NoDup [3; 1; 2] /\ unique [3; 1; 3; 2; 1] = [3; 1; 2]
  /\ unique [3; 1; 2] = [3; 1; 2].
Proof.
  assert (Hn : NoDup [3; 1; 2]) by compute_done.
  split; [exact Hn|]. split; [reflexivity|].
  exact (proj1 (proj2 (proj2 (unique_first_occurrences 0 [3; 1; 2]))) Hn).
Defined.

Section Chunk.
Context {T : Type}.

Lemma slice_window (array : list T) (size i : Z) :
  0 < size -> 0 <= i < Z.of_nat (length array) ->
  slice array i (i + size) = take (Z.to_nat size) (drop (Z.to_nat i) array)
  /\ slice array i (i + size) <> [].
Proof.
  intros Hs Hi. unfold slice, resolve_index.
  destruct (Z.ltb_spec i 0); [lia|]. destruct (Z.ltb_spec (i + size) 0); [lia|].
  rewrite (Z.min_l i) by lia.
  assert (Hlen : length (drop (Z.to_nat i) array) = (length array - Z.to_nat i)%nat)
    by apply length_drop.
  assert (He : take (Z.to_nat (Z.min (i + size) (Z.of_nat (length array)) - i))
                 (drop (Z.to_nat i) array)
               = take (Z.to_nat size) (drop (Z.to_nat i) array)).
  { destruct (Z.le_ge_cases (i + size) (Z.of_nat (length array))).
    - rewrite Z.min_l by lia. f_equal. lia.
    - rewrite Z.min_r by lia. rewrite !take_ge by lia. reflexivity. }
  split; [exact He|]. rewrite He.
  intros Hnil. apply (f_equal length) in Hnil. rewrite length_take, Hlen in Hnil.
  cbn in Hnil. lia.
Qed.

Lemma chunk_loop_spec (array : list T) (size : Z) (fuel : nat) :
  0 < size ->
  forall (i : Z) (chunks : list (list T)),
    0 <= i -> (Z.to_nat (Z.of_nat (length array) - i) < fuel)%nat ->
    exists rest,
      chunk_loop fuel array size i chunks = Some (chunks ++ rest)
      /\ concat rest = drop (Z.to_nat i) array
      /\ forall k c, rest !! k = Some c ->
           c = take (Z.to_nat size) (drop (Z.to_nat i + k * Z.to_nat size) array)
           /\ c <> [].
Proof.
  intros Hs. induction fuel as [|fuel IH]; intros i chunks Hi Hf; [lia|].
  cbn [chunk_loop]. destruct (Z.ltb_spec i (Z.of_nat (length array))) as [Hlt|Hge].
  - destruct (slice_window array size i Hs (conj Hi Hlt)) as [Hsl Hne].
    destruct (IH (i + size) (chunks ++ [slice array i (i + size)])) as (rest & Hr & Hc & Hk);
      [lia | lia |].
    exists (slice array i (i + size) :: rest). split; [|split].
    + rewrite Hr, <- app_assoc. reflexivity.
    + cbn [concat]. rewrite Hc, Hsl.
      replace (Z.to_nat (i + size)) with (Z.to_nat i + Z.to_nat size)%nat by lia.
      rewrite <- drop_drop. apply take_drop.
    + intros k c Hkc. destruct k as [|k].
      * injection Hkc as <-. split; [|exact Hne].
        rewrite Hsl. do 2 f_equal. lia.
      * destruct (Hk k c Hkc) as [-> Hn]. split; [|exact Hn].
        do 2 f_equal. lia.
  - exists []. split; [rewrite app_nil_r; reflexivity|]. split.
    + cbn. symmetry. apply drop_ge. lia.
    + intros k c Hkc. destruct k; discriminate.
Qed.

(** X19: for a positive size, [chunk] returns, and its chunks put together
    are the array: chunk [k] holds the [size] elements from index
    [k * size], fewer only at the end of the array; no chunk is empty and
    every chunk but the last has exactly [size] elements. *)
Theorem chunk_partitions (array : list T) (size : Z) (fuel : nat) :
  0 < size -> (length array < fuel)%nat ->
  exists chunks,
    chunk fuel array size = Some chunks
    /\ concat chunks = array
    /\ forall k c, chunks !! k = Some c ->
         c = take (Z.to_nat size) (drop (k * Z.to_nat size) array)
         /\ (0 < length c <= Z.to_nat size)%nat
         /\ (S k < length chunks -> length c = Z.to_nat size)%nat.
Proof.
  intros Hs Hf.
  destruct (chunk_loop_spec array size fuel Hs 0 []) as (chunks & Hr & Hc & Hk);
    [lia | lia |].
  exists chunks. split; [exact Hr|]. split; [exact Hc|].
  assert (Hshape : forall k c, chunks !! k = Some c ->
            c = take (Z.to_nat size) (drop (k * Z.to_nat size) array) /\ c <> []).
  { intros k c Hkc. destruct (Hk k c Hkc) as [He Hn]. split; [exact He | exact Hn]. }
  intros k c Hkc. destruct (Hshape k c Hkc) as [He Hn].
  split; [exact He|]. split.
  - split.
    + destruct c; [contradiction | cbn; lia].
    + rewrite He, length_take. lia.
  - intros Hlast.
    destruct (lookup_lt_is_Some_2 chunks (S k) Hlast) as [c' Hc'].
    destruct (Hshape (S k) c' Hc') as [He' Hn'].
    assert (Hlen' : (0 < length c')%nat) by (destruct c'; [contradiction | cbn; lia]).
    rewrite He', length_take, length_drop in Hlen'.
    rewrite He, length_take, length_drop. nia.
Qed.

Lemma chunk_loop_runs_on (array : list T) (size : Z) (fuel : nat) :
  size <= 0 ->
  forall (i : Z) (chunks : list (list T)),
    i < Z.of_nat (length array) -> chunk_loop fuel array size i chunks = None.
Proof.
  intros Hs. induction fuel as [|fuel IH]; intros i chunks Hi; [reflexivity|].
  cbn [chunk_loop]. destruct (Z.ltb_spec i (Z.of_nat (length array))); [|lia].
  apply IH. lia.
Qed.

(** X20: for a size that is zero or negative, the loop of [chunk] never
    ends on an array that is not empty: no amount of fuel gives a result.
    On the empty array [chunk] returns no chunk, whatever the size. *)
Theorem chunk_needs_positive_size (array : list T) (size : Z) (fuel : nat) :
  (size <= 0 -> array <> [] -> chunk fuel array size = None)
  /\ chunk (S fuel) (@nil T) size = Some [].
Proof.
  split; [|reflexivity].
  intros Hs Hne. apply chunk_loop_runs_on; [exact Hs|].
  destruct array; [contradiction | cbn; lia].
Qed.

End Chunk.

Lemma chunk_partitions_witness :
  0 < 2 /\ (length [1; 2; 3; 4; 5] < 6)%nat
  /\ chunk 6 [1; 2; 3; 4; 5] 2 = Some [[1; 2]; [3; 4]; [5]].
Proof.
  split; [lia|]. split; [cbn; lia|].
  destruct (chunk_partitions [1; 2; 3; 4; 5] 2 6 ltac:(lia) ltac:(cbn; lia))
    as (chunks & Hr & _ & _).
  rewrite Hr. f_equal. vm_compute in Hr. injection Hr as <-. reflexivity.
Defined.

Lemma chunk_needs_positive_size_witness :
  0 <= 0 /\ [1; 2] <> [] /\ chunk 1000 [1; 2] 0 = None.
Proof.
  split; [lia|]. split; [discriminate|].
  apply (proj1 (chunk_needs_positive_size [1; 2] 0 1000)); [lia | discriminate].
Defined.

End ArraysSpec.

Module ClassNamesSpec.
Import ClassNames.

Lemma append_assoc (a b c : string) :
  String.append (String.append a b) c = String.append a (String.append b c).
Proof.
  induction a as [|x a IH]; [reflexivity|].
  change (String.append (String.append (String x a) b) c)
    with (String x (String.append (String.append a b) c)).
  rewrite IH. reflexivity.
Qed.

Lemma append_empty (a b : string) : String.append a b = EmptyString -> a = EmptyString.
Proof. destruct a; [reflexivity | discriminate]. Qed.

Lemma kept_nonempty (classes : list (option string)) :
  Forall (fun c => c <> EmptyString) (kept classes).
Proof.
  unfold kept. induction classes as [|[[|x c]|] classes IH]; cbn.
  - constructor.
  - exact IH.
  - constructor; [discriminate | exact IH].
  - exact IH.
Qed.

Lemma kept_app (l1 l2 : list (option string)) : kept (l1 ++ l2) = kept l1 ++ kept l2.
Proof. apply omap_app. Qed.

Lemma join_cons (x : string) (xs : list string) :
  xs <> [] ->
  String.concat " " (x :: xs) = String.append x (String.append " " (String.concat " " xs)).
Proof. destruct xs; [contradiction | reflexivity]. Qed.

Lemma join_empty (xs : list string) :
  Forall (fun c => c <> EmptyString) xs ->
  String.concat " " xs = EmptyString -> xs = [].
Proof.
  intros Hne He. destruct xs as [|x xs]; [reflexivity|].
  apply Forall_cons_1 in Hne as [Hx _].
  destruct xs; cbn in He; [contradiction|].
  apply append_empty in He. contradiction.
Qed.

Lemma join_app (xs ys : list string) :
  xs <> [] -> ys <> [] ->
  String.concat " " (xs ++ ys)
  = String.append (String.concat " " xs) (String.append " " (String.concat " " ys)).
Proof.
  intros Hx Hy. induction xs as [|x xs IH]; [contradiction|].
  destruct xs as [|x' xs].
  - cbn [app]. apply join_cons. exact Hy.
  - change ((x :: x' :: xs) ++ ys) with (x :: ((x' :: xs) ++ ys)).
    rewrite join_cons by discriminate. rewrite IH by discriminate.
    rewrite (join_cons x (x' :: xs)) by discriminate.
    rewrite !append_assoc. reflexivity.
Qed.

Lemma kept_of_join (xs : list string) :
  Forall (fun c => c <> EmptyString) xs ->
  kept [Some (String.concat " " xs)] = match xs with [] => [] | _ => [String.concat " " xs] end.
Proof.
  intros Hne. unfold kept. cbn.
  destruct (String.concat " " xs) eqn:He.
  - apply join_empty in He; [subst; reflexivity | exact Hne].
  - destruct xs; [discriminate | reflexivity].
Qed.

(** X21: [cn] nests: joining the results of two calls is joining all the
    arguments at once.  An argument that is [undefined], [null], [false] or
    the empty string leaves no trace, and the result is empty exactly when
    no argument is kept. *)
Theorem cn_nests (l1 l2 : list (option string)) :
  cn [Some (cn l1); Some (cn l2)] = cn (l1 ++ l2)
  /\ cn (l1 ++ None :: l2) = cn (l1 ++ l2)
  /\ cn (l1 ++ Some EmptyString :: l2) = cn (l1 ++ l2)
  /\ (cn l1 = EmptyString <-> kept l1 = []).
Proof.
  split; [|split; [|split]].
  - unfold cn.
    change [Some (String.concat " " (kept l1)); Some (String.concat " " (kept l2))]
      with ([Some (String.concat " " (kept l1))] ++ [Some (String.concat " " (kept l2))]).
    rewrite !kept_app, !kept_of_join by apply kept_nonempty.
    pose proof (kept_nonempty l1) as H1. pose proof (kept_nonempty l2) as H2.
    destruct (kept l1) as [|a k1] eqn:E1; destruct (kept l2) as [|b k2] eqn:E2.
    + reflexivity.
    + reflexivity.
    + cbn [app]. rewrite ?app_nil_r. reflexivity.
    + cbn [app]. change (a :: k1 ++ b :: k2) with ((a :: k1) ++ (b :: k2)).
      rewrite join_app by discriminate. reflexivity.
  - unfold cn. rewrite !kept_app. reflexivity.
  - unfold cn. rewrite !kept_app. reflexivity.
  - unfold cn. split.
    + apply join_empty, kept_nonempty.
    + intros ->. reflexivity.
Qed.

End ClassNamesSpec.

Module MemoizeSpec.
Import Memoize.

Section Memoize.
Context {A R S : Type}.
Variable stringify_args : A -> string.
Variable func : A -> S -> R * S.


(** X23: when distinct arguments serialize differently and the result of
    [func] depends on its arguments only, the memoized function, started
    with an empty cache, returns at every call what [func] returns. *)
Theorem memoize_is_func (f : A -> R) (l : list A) (s : S) :
  (forall a b, stringify_args a = stringify_args b -> a = b) ->
  (forall a s0, fst (func a s0) = f a) ->
  fst (fst (calls stringify_args func l ∅ s)) = map f l.
Proof.
  intros Hinj Hpure.
  assert (Hg : forall (cache : gmap string R) (s0 : S),
             cache_sound stringify_args f cache ->
             fst (fst (calls stringify_args func l cache s0)) = map f l).
  { induction l as [|a l IH]; intros cache s0 Hsound; [reflexivity|].
    cbn [calls map]. unfold call.
    destruct (cache !! stringify_args a) as [r|] eqn:Hc.
    - specialize (IH cache s0 Hsound).
      destruct (calls stringify_args func l cache s0) as [[rs c'] s''].
      cbn in *. rewrite IH. f_equal.
      destruct (Hsound _ _ Hc) as (a' & Hk & ->). f_equal. apply Hinj. exact Hk.
    - pose proof (Hpure a s0) as Hf. destruct (func a s0) as [r s']. cbn in Hf.
      assert (Hs' : cache_sound stringify_args f (<[stringify_args a := r]> cache)).
      { intros k r' Hk. destruct (decide (stringify_args a = k)) as [<-|Hne].
        - rewrite lookup_insert_eq in Hk. injection Hk as <-. exists a. split; congruence.
        - rewrite lookup_insert_ne in Hk by exact Hne. apply Hsound. exact Hk. }
      specialize (IH _ s' Hs').
      destruct (calls stringify_args func l (<[stringify_args a := r]> cache) s')
        as [[rs c'] s''].
      cbn in *. rewrite IH, Hf. reflexivity. }
  apply Hg. intros k r Hk. rewrite lookup_empty in Hk. discriminate.
Qed.

End Memoize.

Lemma stringify_number_injective (a b : Z) :
  JsonInstances.stringify_number a = JsonInstances.stringify_number b -> a = b.
Proof.
  intros He.
  pose proof (Web.parse_stringify (T := Z) a) as Ha.
  pose proof (Web.parse_stringify (T := Z) b) as Hb.
  cbn in Ha, Hb. rewrite He in Ha. rewrite Ha in Hb. injection Hb as Hb. exact Hb.
Qed.


Lemma memoize_is_func_witness :
  fst (fst (calls JsonInstances.stringify_number counted_square [3; 4; 3] ∅ 0%nat))
  = [9; 16; 9].
Proof.
  exact (memoize_is_func JsonInstances.stringify_number counted_square
           (fun a => a * a) [3; 4; 3] 0%nat
           stringify_number_injective (fun a s0 => eq_refl)).
Defined.

End MemoizeSpec.

Module RetrySpec.
Import Web Retry.

Section Retry.
Context {T : Type}.
Variable fn : nat -> Completion T.

Lemma delays_before_S (delayMs : Z) (n : nat) :
  delays_before delayMs (S n) = delays_before delayMs n ++ [delayMs * Z.of_nat (S n)].
Proof. unfold delays_before. rewrite seq_S, map_app. reflexivity. Qed.

Lemma loop_until_success (maxAttempts delayMs : Z) (v : T) (d : nat) :
  forall (n fuel : nat) (lastError : option string),
    (forall j, (n <= j < n + d)%nat -> fails fn j) ->
    fn (n + d)%nat = Returns v ->
    Z.of_nat (n + d) < maxAttempts ->
    (d < fuel)%nat ->
    retry_loop fn fuel maxAttempts delayMs (Z.of_nat n + 1) lastError n
      (delays_before delayMs n)
    = Some {| settled := Resolved v; called := S (n + d);
              delays := delays_before delayMs (n + d) |}.
Proof.
  induction d as [|d IH]; intros n fuel lastError Hf Hv Hlt Hfuel;
    (destruct fuel as [|fuel]; [lia|]); cbn [retry_loop].
  - rewrite Nat.add_0_r in *.
    destruct (Z.leb_spec (Z.of_nat n + 1) maxAttempts); [|lia].
    rewrite Hv. reflexivity.
  - destruct (Z.leb_spec (Z.of_nat n + 1) maxAttempts); [|lia].
    destruct (Hf n ltac:(lia)) as [err ->].
    destruct (Z.eqb_spec (Z.of_nat n + 1) maxAttempts); [lia|].
    replace (Z.of_nat n + 1 + 1) with (Z.of_nat (S n) + 1) by lia.
    replace (delays_before delayMs n ++ [delayMs * (Z.of_nat n + 1)])
      with (delays_before delayMs (S n))
      by (rewrite delays_before_S; do 3 f_equal; lia).
    replace (n + S d)%nat with (S n + d)%nat in * by lia.
    apply IH; [intros j Hj; apply Hf; lia | exact Hv | exact Hlt | lia].
Qed.

Lemma loop_until_exhausted (maxAttempts delayMs : Z) (err : string) (d : nat) :
  forall (n fuel : nat) (lastError : option string),
    (forall j, (n <= j < n + d)%nat -> fails fn j) ->
    fn (n + d)%nat = Throws err ->
    Z.of_nat (n + d) + 1 = maxAttempts ->
    (d < fuel)%nat ->
    retry_loop fn fuel maxAttempts delayMs (Z.of_nat n + 1) lastError n
      (delays_before delayMs n)
    = Some {| settled := Rejected err; called := S (n + d);
              delays := delays_before delayMs (n + d) |}.
Proof.
  induction d as [|d IH]; intros n fuel lastError Hf Hv Hlt Hfuel;
    (destruct fuel as [|fuel]; [lia|]); cbn [retry_loop].
  - rewrite Nat.add_0_r in *.
    destruct (Z.leb_spec (Z.of_nat n + 1) maxAttempts); [|lia].
    rewrite Hv. destruct (Z.eqb_spec (Z.of_nat n + 1) maxAttempts); [|lia].
    reflexivity.
  - destruct (Z.leb_spec (Z.of_nat n + 1) maxAttempts); [|lia].
    destruct (Hf n ltac:(lia)) as [e ->].
    destruct (Z.eqb_spec (Z.of_nat n + 1) maxAttempts); [lia|].
    replace (Z.of_nat n + 1 + 1) with (Z.of_nat (S n) + 1) by lia.
    replace (delays_before delayMs n ++ [delayMs * (Z.of_nat n + 1)])
      with (delays_before delayMs (S n))
      by (rewrite delays_before_S; do 3 f_equal; lia).
    replace (n + S d)%nat with (S n + d)%nat in * by lia.
    apply IH; [intros j Hj; apply Hf; lia | exact Hv | exact Hlt | lia].
Qed.

(** X24: when the first [k] calls of [fn] fail and call [k + 1] succeeds
    within [maxAttempts], [retry] resolves with that result after exactly
    [k + 1] calls, having awaited [delayMs * 1], ..., [delayMs * k] in
    between. *)
Theorem retry_returns_first_success (maxAttempts delayMs : Z) (k fuel : nat) (v : T) :
  (forall j, (j < k)%nat -> fails fn j) ->
  fn k = Returns v ->
  Z.of_nat k < maxAttempts ->
  (k < fuel)%nat ->
  retry fn fuel maxAttempts delayMs
  = Some {| settled := Resolved v; called := S k; delays := delays_before delayMs k |}.
Proof.
  intros Hf Hv Hlt Hfuel.
  exact (loop_until_success maxAttempts delayMs v k 0 fuel None
           (fun j Hj => Hf j ltac:(lia)) Hv Hlt Hfuel).
Qed.

(** X25: when all of [maxAttempts >= 1] calls fail, [retry] rejects with the
    error of the last call after exactly [maxAttempts] calls, and awaits
    nothing after the last failure.  With [maxAttempts <= 0] it never calls
    [fn] and rejects with [undefined]. *)
Theorem retry_gives_up (maxAttempts delayMs : Z) (fuel : nat) :
  (forall (m : nat) (err : string),
      maxAttempts = Z.of_nat (S m) ->
      (forall j, (j < m)%nat -> fails fn j) ->
      fn m = Throws err ->
      (m < fuel)%nat ->
      retry fn fuel maxAttempts delayMs
      = Some {| settled := Rejected err; called := S m;
                delays := delays_before delayMs m |})
  /\ (maxAttempts <= 0 ->
      retry fn (S fuel) maxAttempts delayMs
      = Some {| settled := RejectedUndefined; called := 0; delays := [] |}).
Proof.
  split.
  - intros m err Hm Hf He Hfuel.
    exact (loop_until_exhausted maxAttempts delayMs err m 0 fuel None
             (fun j Hj => Hf j ltac:(lia)) He ltac:(cbn; lia) Hfuel).
  - intros Hle. unfold retry. cbn [retry_loop].
    destruct (Z.leb_spec 1 maxAttempts); [lia | reflexivity].
Qed.

End Retry.

Lemma retry_returns_first_success_witness :
  retry (flaky 2) 10 3 1000
  = Some {| settled := Resolved 2; called := 3; delays := [1000; 2000] |}.
Proof.
  apply (retry_returns_first_success (flaky 2) 3 1000 2 10 2).
  - intros j Hj. exists "busy"%string. unfold flaky.
    destruct (Nat.ltb_spec j 2); [reflexivity | lia].
  - reflexivity.
  - lia.
  - lia.
Defined.

Lemma retry_gives_up_witness :
  retry (flaky 5) 10 3 1000
  = Some {| settled := Rejected "busy"; called := 3; delays := [1000; 2000] |}
  /\ retry (flaky 5) 10 0 1000
     = Some {| settled := RejectedUndefined; called := 0; delays := [] |}.
Proof.
  split.
  - apply (proj1 (retry_gives_up (flaky 5) 3 1000 10) 2%nat "busy"%string).
    + reflexivity.
    + intros j Hj. exists "busy"%string. unfold flaky.
      destruct (Nat.ltb_spec j 5); [reflexivity | lia].
    + reflexivity.
    + lia.
  - apply (proj2 (retry_gives_up (flaky 5) 0 1000 9)). lia.
Defined.

End RetrySpec.

Module FormatSpec.
Import JsonInstances Format.

(** X26: [formatRelativeTime] reports a date less than a minute old, and
    every date in the future, as "just now"; from one minute on it counts
    whole minutes (1 to 59), then whole hours (1 to 23), then whole days
    (1 to 29), and from 30 days on it falls back to the formatted date. *)
Theorem formatRelativeTime_buckets (formatDate : Z -> string) (now date : Z) :
  (now - date < 60000 -> formatRelativeTime formatDate now date = "just now"%string)
  /\ (60000 <= now - date < 3600000 ->
      exists n, 1 <= n <= 59 /\ n = (now - date) / 60000
                /\ formatRelativeTime formatDate now date
                   = String.append (stringify_number n) " minutes ago")
  /\ (3600000 <= now - date < 86400000 ->
      exists n, 1 <= n <= 23 /\ n = (now - date) / 3600000
                /\ formatRelativeTime formatDate now date
                   = String.append (stringify_number n) " hours ago")
  /\ (86400000 <= now - date < 2592000000 ->
      exists n, 1 <= n <= 29 /\ n = (now - date) / 86400000
                /\ formatRelativeTime formatDate now date
                   = String.append (stringify_number n) " days ago")
  /\ (2592000000 <= now - date ->
      formatRelativeTime formatDate now date = formatDate date).
Proof.
  unfold formatRelativeTime.
  set (d := (now - date) / 1000).
  assert (Hd : 1000 * d <= now - date < 1000 * d + 1000)
    by (unfold d; Z.div_mod_to_equations; lia).
  repeat split.
  - intros H. destruct (Z.ltb_spec d 60); [reflexivity | lia].
  - intros H. exists (d / 60).
    assert (Hq : d / 60 = (now - date) / 60000)
      by (unfold d; rewrite Z.div_div by lia; reflexivity).
    split; [Z.div_mod_to_equations; lia|]. split; [exact Hq|].
    destruct (Z.ltb_spec d 60); [lia|]. destruct (Z.ltb_spec d 3600); [reflexivity | lia].
  - intros H. exists (d / 3600).
    assert (Hq : d / 3600 = (now - date) / 3600000)
      by (unfold d; rewrite Z.div_div by lia; reflexivity).
    split; [Z.div_mod_to_equations; lia|]. split; [exact Hq|].
    destruct (Z.ltb_spec d 60); [lia|]. destruct (Z.ltb_spec d 3600); [lia|].
    destruct (Z.ltb_spec d 86400); [reflexivity | lia].
  - intros H. exists (d / 86400).
    assert (Hq : d / 86400 = (now - date) / 86400000)
      by (unfold d; rewrite Z.div_div by lia; reflexivity).
    split; [Z.div_mod_to_equations; lia|]. split; [exact Hq|].
    destruct (Z.ltb_spec d 60); [lia|]. destruct (Z.ltb_spec d 3600); [lia|].
    destruct (Z.ltb_spec d 86400); [lia|].
    destruct (Z.ltb_spec d 2592000); [reflexivity | lia].
  - intros H.
    destruct (Z.ltb_spec d 60); [lia|]. destruct (Z.ltb_spec d 3600); [lia|].
    destruct (Z.ltb_spec d 86400); [lia|].
    destruct (Z.ltb_spec d 2592000); [lia | reflexivity].
Qed.

Lemma formatRelativeTime_buckets_witness :
  5000 - 9000 < 60000
  /\ formatRelativeTime (fun _ => "a date"%string) 5000 9000 = "just now"%string.
Proof.
  split; [lia|].
  apply (proj1 (formatRelativeTime_buckets (fun _ => "a date"%string) 5000 9000)). lia.
Defined.

End FormatSpec.

Module ErrorHandlersSpec.
Import Web ErrorHandlers.

Section Registry.
Context {H : Type} `{EqDecision H}.
Variable run : H -> string -> Completion unit.

Lemma invoked_notifyHandlers (message : string) (hs : list H) :
  invoked (notifyHandlers run message hs) = hs.
Proof.
  unfold invoked. induction hs as [|h hs IH]; [reflexivity|].
  cbn [notifyHandlers]. destruct (run h message); cbn; rewrite IH; reflexivity.
Qed.

(** An error is passed to every registered handler, once per
    registration and in the order of registration, whether or not handlers
    before it throw; after [removeErrorHandler] a handler is called no more,
    however often it was added, and the other handlers are called as
    before. *)
Theorem handlers_notified (message : string) (handler : H) (hs : list H) :
  invoked (notifyHandlers run message hs) = hs
  /\ invoked (notifyHandlers run message (addErrorHandler handler hs)) = hs ++ [handler]
  /\ (handler ∉ invoked (notifyHandlers run message
                           (removeErrorHandler handler
                              (addErrorHandler handler (addErrorHandler handler hs)))))
  /\ invoked (notifyHandlers run message (removeErrorHandler handler hs))
     = filter (fun h => h <> handler) (invoked (notifyHandlers run message hs)).
Proof.
  rewrite !invoked_notifyHandlers. split; [reflexivity|]. split; [reflexivity|].
  split; [|reflexivity].
  unfold removeErrorHandler. intros Hin.
  apply list_elem_of_filter in Hin as [Hne _]. apply Hne. reflexivity.
Qed.

End Registry.

End ErrorHandlersSpec.

Module CounterComponentSpec.
Import Types Counter CounterComponent.

Lemma clicks_snoc (count : Z) (cs : list Click) (c : Click) :
  clicks count (cs ++ [c]) = click (clicks count cs) c.
Proof. unfold clicks. rewrite fold_left_app. reflexivity. Qed.

(** X27: the count of the Counter component, started at 0 or above, is
    never negative, whatever is clicked; started below 0, one click on
    Decrement takes it up to 0. *)
Theorem component_count_not_negative (initial : option Z) (cs : list Click) :
  (0 <= Counter initial -> 0 <= clicks (Counter initial) cs)
  /\ (Counter initial < 0 -> click (Counter initial) ClickDecrement = 0).
Proof.
  split.
  - intros H0. induction cs as [|c cs IH] using rev_ind; [exact H0|].
    rewrite clicks_snoc. destruct c; cbn [click].
    + unfold handleIncrement. lia.
    + unfold decrement_disabled, handleDecrement. case_match; lia.
  - intros Hneg. cbn [click]. unfold decrement_disabled, handleDecrement.
    destruct (Z.eqb_spec (Counter initial) 0); lia.
Qed.

Lemma component_count_not_negative_witness :
  0 <= Counter (Some 1)
  /\ 0 <= clicks (Counter (Some 1)) [ClickDecrement; ClickDecrement; ClickDecrement].
Proof.
  assert (H0 : 0 <= Counter (Some 1)) by (cbn; lia).
  split; [exact H0|].
  exact (proj1 (component_count_not_negative (Some 1)
                  [ClickDecrement; ClickDecrement; ClickDecrement]) H0).
Defined.

Lemma run_ops_config (h : Hook) (ops : list Op) : config (run_ops h ops) = config h.
Proof.
  unfold run_ops. revert h. induction ops as [|o ops IH]; intros h; cbn; [reflexivity|].
  rewrite IH. apply CounterSpec.run_op_config.
Qed.

(** X28: started at the same value, not negative, the Counter component and
    the [useCounter] hook with its default bounds show the same count after
    the same clicks, as long as the clicks cannot reach the hook's default
    [maxValue]. *)
Theorem component_agrees_with_hook (initial : Z) (w : Ambient.World) (cs : list Click) :
  0 <= initial ->
  initial + Z.of_nat (length cs) <= MAX_SAFE_INTEGER ->
  clicks (Counter (Some initial)) cs
  = count (run_ops (useCounter (initial_only initial) w) (map as_op cs)).
Proof.
  intros H0 Hmax.
  assert (Hg : clicks (Counter (Some initial)) cs
               = count (run_ops (useCounter (initial_only initial) w) (map as_op cs))
               /\ 0 <= clicks (Counter (Some initial)) cs <= initial + Z.of_nat (length cs)).
  { induction cs as [|c cs IH] using rev_ind.
    - cbn. split; [reflexivity | lia].
    - rewrite length_app in Hmax. cbn [length] in Hmax.
      destruct (IH ltac:(lia)) as [He Hb].
      rewrite clicks_snoc, map_app, length_app. cbn [map length].
      rewrite CounterTrail.run_ops_snoc.
      set (h := run_ops (useCounter (initial_only initial) w) (map as_op cs)) in *.
      assert (Hc : config h = config (useCounter (initial_only initial) w))
        by apply run_ops_config.
      unfold count in *. destruct c; cbn [click as_op run_op].
      + rewrite CounterSpec.increment_value, Hc. cbn [useCounter config maxValue mergeConfig
          initial_only maxValue_opt defaultConfig default].
        rewrite <- He. unfold handleIncrement.
        destruct (Z.ltb_spec (clicks (Counter (Some initial)) cs) MAX_SAFE_INTEGER); lia.
      + rewrite CounterSpec.decrement_value, Hc. cbn [useCounter config minValue mergeConfig
          initial_only minValue_opt defaultConfig default].
        rewrite <- He, Z.gtb_ltb. unfold decrement_disabled, handleDecrement.
        destruct (Z.eqb_spec (clicks (Counter (Some initial)) cs) 0);
          destruct (Z.ltb_spec 0 (clicks (Counter (Some initial)) cs)); lia. }
  exact (proj1 Hg).
Qed.

Lemma component_agrees_with_hook_witness :
  clicks (Counter (Some 1)) [ClickDecrement; ClickDecrement; ClickIncrement]
  = count (run_ops (useCounter (initial_only 1) Ambient.world0)
             [OpDecrement; OpDecrement; OpIncrement]).
Proof.
  apply (component_agrees_with_hook 1 Ambient.world0
           [ClickDecrement; ClickDecrement; ClickIncrement]).
  - lia.
  - vm_compute. discriminate.
Defined.

End CounterComponentSpec.

Module AppContextSpec.
Import Ambient Types AppContext.

Section App.
Context {Theme : Type}.

(** X29: on the four counter actions the context reducer moves its counter
    slice exactly as [counterReducer] moves a counter state, with the same
    history entry, and touches neither the theme nor the settings. *)
Theorem appReducer_counter_slice (state : AppState Theme) (a : AppAction Theme)
    (ca : Counter.CounterAction) (w : World) :
  counter_action a = Some ca ->
  counter (fst (appReducer state a w)) = fst (Counter.counterReducer (counter state) ca w)
  /\ snd (appReducer state a w) = snd (Counter.counterReducer (counter state) ca w)
  /\ theme (fst (appReducer state a w)) = theme state
  /\ settings (fst (appReducer state a w)) = settings state.
Proof.
  destruct a; cbn [counter_action]; intros [= <-]; repeat split.
Qed.

Lemma appReducer_counts (state : AppState Theme) (a : AppAction Theme) (w : World) :
  let b (p : AppAction Theme -> bool) : Z := if p a then 1 else 0 in
  totalInteractions (analytics (fst (appReducer state a w)))
    = totalInteractions (analytics state) + b is_interaction
  /\ counterClicks (analytics (fst (appReducer state a w)))
     = counterClicks (analytics state) + b is_click
  /\ themeChanges (analytics (fst (appReducer state a w)))
     = themeChanges (analytics state) + b is_theme_change
  /\ errorCount (analytics (fst (appReducer state a w)))
     = errorCount (analytics state) + b is_error_report.
Proof.
  cbv zeta. destruct a as [| | | |[e|]| | | |]; cbn; repeat split; lia.
Qed.

Lemma occurrences_cons (p : AppAction Theme -> bool) (a : AppAction Theme)
    (l : list (AppAction Theme)) :
  occurrences p (a :: l) = (if p a then 1 else 0) + occurrences p l.
Proof.
  unfold occurrences. rewrite filter_cons.
  destruct (p a); case_decide; try congruence; cbn [length]; lia.
Qed.

(** X30: along any sequence of dispatches each analytics counter grows by
    the number of actions it counts: [counterClicks] by the increments and
    decrements, [themeChanges] by the theme changes, [totalInteractions] by
    those and the resets and explicit interaction events, [errorCount] by
    the error reports.  Setting a value, clearing an error and updating the
    settings count as no interaction. *)
Theorem analytics_count_actions (actions : list (AppAction Theme))
    (state : AppState Theme) (w : World) :
  let final := analytics (fst (dispatch_all state actions w)) in
  totalInteractions final
    = totalInteractions (analytics state) + occurrences is_interaction actions
  /\ counterClicks final = counterClicks (analytics state) + occurrences is_click actions
  /\ themeChanges final
     = themeChanges (analytics state) + occurrences is_theme_change actions
  /\ errorCount final
     = errorCount (analytics state) + occurrences is_error_report actions.
Proof.
  cbv zeta. revert state w. induction actions as [|a actions IH]; intros state w.
  - cbn. unfold occurrences. cbn. repeat split; lia.
  - cbn [dispatch_all]. unfold bind.
    pose proof (appReducer_counts state a w) as Hc. cbv zeta in Hc.
    destruct (appReducer state a w) as [state' w']. cbn [fst] in Hc.
    destruct Hc as (H1 & H2 & H3 & H4).
    destruct (IH state' w') as (I1 & I2 & I3 & I4).
    rewrite !occurrences_cons, I1, I2, I3, I4, H1, H2, H3, H4.
    repeat split; lia.
Qed.

(** The counter slice keeps its error through every action but
    [COUNTER_SET_ERROR]; that action stores the message of the error it
    carries, and clears the error when it carries none or one whose message
    is empty. *)
Theorem app_error_only_set_explicitly (state : AppState Theme) (a : AppAction Theme)
    (w : World) :
  ((forall payload, a <> COUNTER_SET_ERROR payload) ->
   error (counter (fst (appReducer state a w))) = error (counter state))
  /\ (forall e : CounterError,
        error (counter (fst (appReducer state (COUNTER_SET_ERROR (Some e)) w)))
        = if decide (message e = EmptyString) then None else Some (message e))
  /\ error (counter (fst (appReducer state (COUNTER_SET_ERROR None) w))) = None.
Proof.
  split; [|split].
  - intros Hne. destruct a; try reflexivity. exfalso. exact (Hne _ eq_refl).
  - intros e. cbn. destruct (message e); reflexivity.
  - reflexivity.
Qed.

End App.

Lemma appReducer_counter_slice_witness :
  counter_action (Theme := unit) COUNTER_DECREMENT = Some (Counter.act DECREMENT)
  /\ value (counter (fst (appReducer (Theme := unit) (initialAppState 0)
                            COUNTER_DECREMENT world0))) = 0
  /\ length (history (counter (fst (appReducer (Theme := unit) (initialAppState 0)
                                     COUNTER_DECREMENT world0)))) = 1%nat.
Proof.
  split; [reflexivity|].
  rewrite (proj1 (appReducer_counter_slice (Theme := unit) (initialAppState 0)
                    COUNTER_DECREMENT (Counter.act DECREMENT) world0 eq_refl)).
  split; reflexivity.
Defined.

End AppContextSpec.
